(** * fast-fuzzy: the fuzzy index, the per-artist search and the shard worker

    A shallow embedding of [fuzzy_index.py], [search_index.py] and
    [search_process.py].  Python values are modelled as follows.

    - A [str] is a list of Unicode code points; [None] is [None] of [option].
    - An [int] is a [Z].  A confidence (a Python float) is an exact rational
      [Q]: the development only compares confidences, negates them, takes
      absolute values and halves sums, and uses of these operations only
      that they respect the order.
    - A raised exception is the [Raise] case of [outcome].
    - A call binds its arguments to the parameters of the method called as
      Python does: [search_index.py] calls [FuzzyIndex.build] and
      [FuzzyIndex.search] with an argument more than [fuzzy_index.py]
      declares, and such a call raises [TypeError].
    - [self.artist_data] is a [gmap]; the insertion-ordered dictionaries
      whose iteration order the code depends on are association lists. *)

From Stdlib Require Import ZArith NArith QArith Qabs Lqa List Sorted String Ascii Bool Lia.
From stdpp Require Import base option list gmap.
Import ListNotations.

Local Close Scope Q_scope.
Local Open Scope nat_scope.

(** ** Python basics *)

Module py.

Definition char := N.
Definition str := list char.

(** An ASCII literal as a [str]. *)
Definition lit (s : string) : str :=
  List.map N_of_ascii (list_ascii_of_string s).

Inductive exn :=
| TypeError | AttributeError | IndexError | ValueError | KeyError.

Inductive outcome (A : Type) :=
| Ok (a : A)
| Raise (e : exn).
Arguments Ok {A} a.
Arguments Raise {A} e.

Definition bind {A B} (m : outcome A) (k : A -> outcome B) : outcome B :=
  match m with
  | Ok a => k a
  | Raise e => Raise e
  end.

(** [for x in l: body], where the body may raise and its results are appended. *)
Fixpoint for_each {A B} (body : A -> outcome (list B)) (l : list A)
  : outcome (list B) :=
  match l with
  | [] => Ok []
  | x :: l' =>
      bind (body x) (fun ys => bind (for_each body l') (fun zs => Ok (ys ++ zs)))
  end.

(** [l[i]] for an [int] index: negative indices count from the end, an
    index out of range raises [IndexError]. *)
Definition getitem {A} (l : list A) (i : Z) : outcome A :=
  let n := Z.of_nat (length l) in
  let j := if (i <? 0)%Z then (i + n)%Z else i in
  if ((0 <=? j)%Z && (j <? n)%Z)%bool then
    match nth_error l (Z.to_nat j) with
    | Some x => Ok x
    | None => Raise IndexError
    end
  else Raise IndexError.

(** [d[k]] on a dict of which it is known whether it has the key [k]:
    the value under the key, or [KeyError] when the dict has no such
    key. *)
Definition subscript {A} (v : option A) : outcome A :=
  match v with
  | Some a => Ok a
  | None => Raise KeyError
  end.

(** Truth value of a [str] or [None]. *)
Definition truthy (s : option str) : bool :=
  match s with
  | Some (_ :: _) => true
  | _ => false
  end.

(** [zip( *ls )]: the columns of [ls], as many as the shortest row has. *)
Definition zip_star {A} (ls : list (list A)) : list (list A) :=
  match ls with
  | [] => []
  | l0 :: _ =>
      let m := fold_right Nat.min (length l0) (List.map (@length A) ls) in
      List.map (fun j => flat_map (fun l => firstn 1 (skipn j l)) ls) (seq 0 m)
  end.

(** [zip(a, b)]. *)
Fixpoint zip {A B} (a : list A) (b : list B) : list (A * B) :=
  match a, b with
  | x :: a', y :: b' => (x, y) :: zip a' b'
  | _, _ => []
  end.

(** [key(x) <= key(y)] for keys that are pairs of a float and an int,
    compared as Python compares tuples. *)
Definition key_le (k1 k2 : Q * Z) : bool :=
  match (fst k1 ?= fst k2)%Q with
  | Lt => true
  | Gt => false
  | Eq => (snd k1 <=? snd k2)%Z
  end.

Fixpoint insert_by {A} (key : A -> Q * Z) (x : A) (l : list A) : list A :=
  match l with
  | [] => [x]
  | y :: l' =>
      if key_le (key x) (key y) then x :: l else y :: insert_by key x l'
  end.

(** [sorted(l, key=key)]: the stable sort of [l]. *)
Definition sorted {A} (key : A -> Q * Z) (l : list A) : list A :=
  fold_right (insert_by key) [] l.

End py.

Import py.

#[global] Instance outcome_ret : MRet outcome := @Ok.
#[global] Instance outcome_bind : MBind outcome :=
  fun A B k m => py.bind m k.

(** ** fuzzy_index.py *)

Module fuzzy_index.

Definition space : char := 32%N.
Definition underscore : char := 95%N.

(** [ngrams(string, n=3)]. *)
Definition ngrams (string : str) (n : nat) : list str :=
  let string := [space] ++ string ++ [space] in
  let ngrams := zip_star (List.map (fun i => skipn i string) (seq 0 n)) in
  List.map (fun ngram => concat (List.map (fun c => [c]) ngram)) ngrams.

(** What [encode_string] uses of Python's Unicode tables and of the
    [unidecode] package. *)
Class Unicode := {
  isalnum : char -> bool;      (* the alphanumeric part of [\w] *)
  isspace : char -> bool;      (* the characters [str.strip] removes *)
  lower : str -> str;          (* [str.lower] *)
  unidecode : str -> str       (* [unidecode.unidecode] *)
}.

Section encode.
Context `{Unicode}.

Definition is_word (c : char) : bool := isalnum c || (c =? underscore)%N.

(** [re.sub(r'[^\w ]+', '', text)] *)
Definition sub_non_word (text : str) : str :=
  List.filter (fun c => is_word c || (c =? space)%N) text.

(** [re.sub(" +", "", text)] *)
Definition sub_spaces (text : str) : str :=
  List.filter (fun c => negb (c =? space)%N) text.

Fixpoint lstrip (text : str) : str :=
  match text with
  | c :: text' => if isspace c then lstrip text' else text
  | [] => []
  end.

Definition strip (text : str) : str := rev (lstrip (rev (lstrip text))).

Definition encode_string (text : option str) : option str :=
  match text with
  | None => None
  | Some text =>
      Some (unidecode (lower (strip (sub_spaces (sub_non_word text)))))
  end.
End encode.

(** The ASCII part of the tables: letters and digits, white space, and
    the lower case of a letter. *)
Definition in_range (lo hi c : N) : bool := ((lo <=? c) && (c <=? hi))%N.

Definition ascii_alnum (c : char) : bool :=
  in_range 48 57 c || in_range 65 90 c || in_range 97 122 c.

Definition ascii_space (c : char) : bool :=
  in_range 9 13 c || in_range 28 32 c.

Definition ascii_lower (c : char) : char :=
  if in_range 65 90 c then (c + 32)%N else c.

Definition is_ascii (c : char) : bool := (c <? 128)%N.

(** A lower-case ASCII letter, a digit or an underscore. *)
Definition plain (c : char) : bool :=
  in_range 48 57 c || in_range 97 122 c || (c =? underscore)%N.

(** Python's tables and [unidecode] on ASCII text. *)
Class AsciiUnicode `{Unicode} : Prop := {
  isalnum_ascii : forall c, is_ascii c = true -> isalnum c = ascii_alnum c;
  isspace_ascii : forall c, is_ascii c = true -> isspace c = ascii_space c;
  lower_ascii : forall s, forallb is_ascii s = true -> lower s = List.map ascii_lower s;
  unidecode_ascii : forall s, forallb is_ascii s = true -> unidecode s = s
}.

(** What [FuzzyIndex] uses of scikit-learn's [TfidfVectorizer] and of
    nmslib.  [fit_transform] may raise (an empty vocabulary);
    [knnQueryBatch] returns one pair of id and distance arrays per query
    row. *)
Class Backend := {
  vectorizer_t : Type;
  matrix_t : Type;
  nmslib_index_t : Type;
  fit_transform : list str -> outcome (vectorizer_t * matrix_t);
  transform : vectorizer_t -> list str -> matrix_t;
  createIndex : matrix_t -> list Z -> nmslib_index_t;
  knnQueryBatch : nmslib_index_t -> matrix_t -> nat -> list (list Z * list Q)
}.

Record hit := { confidence : Q; id : Z; text : str }.

Section FuzzyIndex.
Context `{Backend}.

Record FuzzyIndex := {
  have_nmslib : bool;
  vectorizer : option vectorizer_t;
  index : option nmslib_index_t
}.

(** [FuzzyIndex()], with the module's [have_nmslib] flag. *)
Definition init (have : bool) : FuzzyIndex :=
  {| have_nmslib := have; vectorizer := None; index := None |}.

(** [build(self, search_data)]: the returned index is [self] afterwards. *)
Definition build (self : FuzzyIndex) (search_data : list (str * Z))
  : outcome FuzzyIndex :=
  if negb (have_nmslib self) then Ok self
  else
    let lookup_strings := List.map fst search_data in
    let lookup_ids := List.map snd search_data in
    vm ← fit_transform lookup_strings;
    Ok {| have_nmslib := have_nmslib self;
          vectorizer := Some (fst vm);
          index := Some (createIndex (snd vm) lookup_ids) |}.

(** [search(self, query_string)]. *)
Definition search (self : FuzzyIndex) (query_string : str)
  : outcome (list hit) :=
  if negb (have_nmslib self) then Ok []
  else
    match vectorizer self with
    | None => Raise AttributeError
    | Some v =>
        let query_matrix := transform v [query_string] in
        match index self with
        | None => Raise AttributeError
        | Some ix =>
            let results := knnQueryBatch ix query_matrix 3 in
            r0 ← getitem results 0;
            Ok (List.map
                  (fun ic => {| confidence := Qabs (snd ic);
                                id := fst ic;
                                text := query_string |})
                  (zip (fst r0) (snd r0)))
        end
    end.

(** The call [self.search(query_string, **kwargs)]: the signature of
    [search] has no keyword besides [query_string], which the
    positional argument already binds, so any keyword is a
    [TypeError]. *)
Definition call_search (self : FuzzyIndex) (query_string : str)
    (kwargs : list (string * Q)) : outcome (list hit) :=
  match kwargs with
  | [] => search self query_string
  | _ :: _ => Raise TypeError
  end.

(** The call [self.build(search_data, extra)] with two positional
    arguments: [build] is declared with the one parameter [search_data]
    besides [self], so Python raises [TypeError] when it binds the
    arguments, before the body of [build] runs and whatever the arguments
    are. *)
Definition call_build_2 {A B} (self : FuzzyIndex) (search_data : A) (extra : B)
  : outcome FuzzyIndex :=
  Raise TypeError.
End FuzzyIndex.

End fuzzy_index.

(** ** search_index.py *)

Module search_index.

Import fuzzy_index.

Definition RELEASE_CONFIDENCE : Q := 5 # 10.
Definition RECORDING_CONFIDENCE : Q := 5 # 10.

(** A row of the [Mapping] table, as far as [load_artist] reads it. *)
Record Mapping := {
  recording_id : Z;
  release_id : Z;
  recording_name : option str;
  release_name : option str;
  score : Z
}.

(** The row store: [Mapping.select().where(Mapping.artist_credit_id == a)]. *)
Class Database := {
  select_where_artist_credit_id : Z -> list Mapping
}.

(** An element of [recording_ref[text]]. *)
Record recording_row := { rr_id : Z; rr_release_id : Z; rr_score : Z }.

(** An element of the first [release_data] list. *)
Record release_row := { lr_id : Z; lr_text : option str; lr_score : Z }.

(** An element of [recording_data]. *)
Record recording_group := {
  rg_text : option str;
  rg_id : Z;
  rg_recording_data : list recording_row
}.

(** An element of the final [release_data]. *)
Record release_group := {
  lg_text : option str;
  lg_id : Z;
  lg_release_id_scores : list (Z * Z)
}.

(** [d[k].append(v)] on a [defaultdict(list)], keys in insertion order. *)
Fixpoint dd_append {K V} `{EqDecision K} (k : K) (v : V)
    (d : list (K * list V)) : list (K * list V) :=
  match d with
  | [] => [(k, [v])]
  | (k', vs) :: d' =>
      if decide (k = k') then (k', vs ++ [v]) :: d'
      else (k', vs) :: dd_append k v d'
  end.

(** [d[k].append(v)] on a [defaultdict(list)] whose order is not used. *)
Definition gm_append (k : Z) (v : Z) (d : gmap Z (list Z)) : gmap Z (list Z) :=
  <[k := default [] (d !! k) ++ [v]]> d.

Section search_index.
Context `{Unicode} `{Database} `{Backend}.

(** The flag [have_nmslib] of the module [fuzzy_index], which every
    [FuzzyIndex()] copies. *)
Variable have : bool.

(** A value of [self.artist_data]. *)
Record entry := {
  recording_index : FuzzyIndex;
  recording_data : list recording_group;
  release_index : FuzzyIndex;
  recording_releases : gmap Z (list Z);
  release_data : list release_group
}.

(** A [MappingLookupSearch] object: its cache, and the log of the artist
    ids whose rows were read from the row store (latest first). *)
Record MappingLookupSearch := {
  artist_data : gmap Z entry;
  row_store_reads : list Z
}.

(** The state of the first loop of [load_artist]. *)
Record rows_acc := {
  acc_recording_ref : list (option str * list recording_row);
  acc_recording_releases : gmap Z (list Z);
  acc_release_data : list release_row
}.

Definition read_row (acc : rows_acc) (row : Mapping) : rows_acc :=
  let encoded := encode_string (recording_name row) in
  let recording_ref :=
    dd_append encoded
      {| rr_id := recording_id row; rr_release_id := release_id row;
         rr_score := score row |}
      (acc_recording_ref acc) in
  let recording_releases :=
    gm_append (recording_id row) (release_id row) (acc_recording_releases acc) in
  let encoded := encode_string (release_name row) in
  let release_data :=
    if truthy encoded then
      acc_release_data acc ++
        [{| lr_id := release_id row; lr_text := encoded; lr_score := score row |}]
    else acc_release_data acc in
  {| acc_recording_ref := recording_ref;
     acc_recording_releases := recording_releases;
     acc_release_data := release_data |}.

Definition read_rows (data : list Mapping) : rows_acc :=
  fold_left read_row data
    {| acc_recording_ref := []; acc_recording_releases := ∅;
       acc_release_data := [] |}.

(** The second loop: [recording_data] from [recording_ref]. *)
Definition group_recordings (recording_ref : list (option str * list recording_row))
  : list recording_group :=
  imap (fun i kv => {| rg_text := fst kv; rg_id := Z.of_nat i;
                       rg_recording_data := snd kv |}) recording_ref.

(** The third loop: [release_ref] from the first [release_data]. *)
Definition ref_releases (release_data : list release_row)
  : list (option str * list (Z * Z)) :=
  fold_left (fun release_ref release =>
               dd_append (lr_text release) (lr_id release, lr_score release)
                 release_ref)
    release_data [].

(** The fourth loop: the final [release_data] from [release_ref]. *)
Definition group_releases (release_ref : list (option str * list (Z * Z)))
  : list release_group :=
  imap (fun i kv => {| lg_text := fst kv; lg_id := Z.of_nat i;
                       lg_release_id_scores := snd kv |}) release_ref.

Definition is_empty {A} (l : list A) : bool :=
  match l with [] => true | _ => false end.

(** [load_artist(self, artist_credit_id)]: the returned value ([None] of
    Python is [None]) or the exception raised, and [self] afterwards.
    Both indexes are built by [index.build(data, "text")], a call with
    two positional arguments. *)
Definition load_artist (self : MappingLookupSearch) (artist_credit_id : Z)
  : outcome (option entry) * MappingLookupSearch :=
  match artist_data self !! artist_credit_id with
  | Some e => (Ok (Some e), self)
  | None =>
      let data := select_where_artist_credit_id artist_credit_id in
      let self := {| artist_data := artist_data self;
                     row_store_reads := artist_credit_id :: row_store_reads self |} in
      let acc := read_rows data in
      let recording_data := group_recordings (acc_recording_ref acc) in
      let release_data := group_releases (ref_releases (acc_release_data acc)) in
      let recording_index := init have in
      if is_empty recording_data then (Ok None, self)
      else
        match call_build_2 recording_index recording_data "text"%string with
        | Raise e => (Raise e, self)
        | Ok recording_index =>
            let release_index := init have in
            if is_empty release_data then (Ok None, self)
            else
              match call_build_2 release_index release_data "text"%string with
              | Raise e => (Raise e, self)
              | Ok release_index =>
                  let e := {| recording_index := recording_index;
                              recording_data := recording_data;
                              release_index := release_index;
                              recording_releases := acc_recording_releases acc;
                              release_data := release_data |} in
                  (Ok (Some e),
                   {| artist_data := <[artist_credit_id := e]> (artist_data self);
                      row_store_reads := row_store_reads self |})
              end
        end
  end.

(** A search request, which is a dict: a field is [None] when the dict has
    no such key, and [has_exit] is ["exit" in req]. *)
Record request := {
  req_id : option Z;
  req_artist_ids : option (list Z);
  req_artist_name : option (option str);
  req_release_name : option (option str);
  req_recording_name : option (option str);
  has_exit : bool
}.

(** An expanded recording candidate and an expanded release candidate. *)
Record rec_result := {
  rec_text : str;
  rec_confidence : Q;
  rec_id : Z;
  rec_score : Z;
  rec_release_id : Z
}.

Record rel_result := {
  rel_text : str;
  rel_confidence : Q;
  rel_id : Z;
  rel_score : Z
}.

(** An element of [hits]. *)
Record combined := {
  hit_recording_id : Z;
  hit_recording_text : str;
  hit_recording_conf : Q;
  hit_score : Z;
  hit_release_id : Z;
  hit_release_name : str;
  hit_release_conf : Q;
  hit_confidence : Q
}.

(** A tuple of the returned list: release id, recording id, confidence,
    request id. *)
Definition result : Type := Z * Z * Q * Z.

(** The value [search] returns: a list, or [None] when the function body
    ends without a [return]. *)
Inductive retval :=
| RetNone
| RetList (l : list result).

Definition rec_key (r : rec_result) : Q * Z := ((- rec_confidence r)%Q, rec_score r).
Definition rel_key (r : rel_result) : Q * Z := ((- rel_confidence r)%Q, rel_score r).

(** The call [index.search(query, min_confidence=c)].  The keyword is
    bound before the body of [search] runs, so it fails in the same way
    when the query is [None]. *)
Definition search_min_confidence (index : FuzzyIndex) (query : option str)
    (c : Q) : outcome (list hit) :=
  match query with
  | Some query_string =>
      call_search index query_string [("min_confidence"%string, c)]
  | None => Raise TypeError
  end.

(** The recording stage: query, expand, sort. *)
Definition recording_stage (artist_data : entry) (recording_name : option str)
  : outcome (list rec_result) :=
  rec_results ←
    search_min_confidence (recording_index artist_data) recording_name
      RECORDING_CONFIDENCE;
  exp_results ←
    for_each (fun result =>
                data ← getitem (recording_data artist_data) (id result);
                Ok (List.map
                      (fun d => {| rec_text := text result;
                                   rec_confidence := confidence result;
                                   rec_id := rr_id d;
                                   rec_score := rr_score d;
                                   rec_release_id := rr_release_id d |})
                      (rg_recording_data data)))
      rec_results;
  Ok (sorted rec_key exp_results).

(** The release stage. *)
Definition release_stage (artist_data : entry) (release_name : option str)
  : outcome (list rel_result) :=
  rel_results ←
    search_min_confidence (release_index artist_data) release_name
      RELEASE_CONFIDENCE;
  exp_results ←
    for_each (fun result =>
                data ← getitem (release_data artist_data) (id result);
                Ok (List.map
                      (fun rs => {| rel_text := text result;
                                    rel_confidence := confidence result;
                                    rel_id := fst rs;
                                    rel_score := snd rs |})
                      (lg_release_id_scores data)))
      rel_results;
  Ok (sorted rel_key exp_results).

Definition pair_hit (rec_res : rec_result) (rel_res : rel_result) : combined :=
  {| hit_recording_id := rec_id rec_res;
     hit_recording_text := rec_text rec_res;
     hit_recording_conf := rec_confidence rec_res;
     hit_score := rec_score rec_res;
     hit_release_id := rel_id rel_res;
     hit_release_name := rel_text rel_res;
     hit_release_conf := rel_confidence rel_res;
     hit_confidence := ((rec_confidence rec_res + rel_confidence rel_res) / 2)%Q |}.

(** The combination loops over [rec_results[:3]] and [rel_results[:3]]. *)
Definition combine (artist_data : entry) (rec_results : list rec_result)
    (rel_results : list rel_result) : list combined :=
  flat_map (fun rec_res =>
    flat_map (fun rel_res =>
      if bool_decide (is_Some (recording_releases artist_data !! rec_id rec_res))
      then [pair_hit rec_res rel_res] else [])
      (firstn 3 rel_results))
    (firstn 3 rec_results).

(** How one iteration of the loop over [artist_ids] ends. *)
Inductive flow :=
| Continue
| Return (v : list result)
| Throw (e : exn).

(** The loop body of [search] for an artist that [load_artist] found.
    Both [return] statements read [req["id"]]. *)
Definition search_artist (artist_data : entry) (req : request)
    (release_name recording_name : option str) : flow :=
  match recording_stage artist_data recording_name with
  | Raise e => Throw e
  | Ok rec_results =>
      if negb (truthy release_name) then
        if is_empty rec_results then Continue
        else
          match subscript (req_id req) with
          | Raise e => Throw e
          | Ok i =>
              Return (List.map
                        (fun r => (rec_release_id r, rec_id r, rec_confidence r, i))
                        (firstn 3 rec_results))
          end
      else
        match release_stage artist_data release_name with
        | Raise e => Throw e
        | Ok rel_results =>
            match combine artist_data rec_results rel_results with
            | [] => Continue
            | hit0 :: _ =>
                match subscript (req_id req) with
                | Raise e => Throw e
                | Ok i =>
                    Return [(hit_release_id hit0, hit_recording_id hit0,
                             hit_confidence hit0, i)]
                end
            end
        end
  end.

(** The loop of [search] over the remaining [artist_ids]. *)
Fixpoint search_loop (self : MappingLookupSearch) (req : request)
    (release_name recording_name : option str) (artist_ids : list Z)
  : outcome retval * MappingLookupSearch :=
  match artist_ids with
  | [] => (Ok RetNone, self)
  | artist_id :: artist_ids' =>
      match load_artist self artist_id with
      | (Raise e, self) => (Raise e, self)
      | (Ok None, self) =>
          search_loop self req release_name recording_name artist_ids'
      | (Ok (Some artist_data), self) =>
          match search_artist artist_data req release_name recording_name with
          | Continue => search_loop self req release_name recording_name artist_ids'
          | Return v => (Ok (RetList v), self)
          | Throw e => (Raise e, self)
          end
      end
  end.

(** The four reads of the request at the head of [search]; the encoded
    artist name is computed and not used. *)
Definition read_request (req : request)
  : outcome (list Z * option str * option str) :=
  artist_ids ← subscript (req_artist_ids req);
  artist_name ← subscript (req_artist_name req);
  release_name ← subscript (req_release_name req);
  recording_name ← subscript (req_recording_name req);
  Ok (artist_ids, encode_string release_name, encode_string recording_name).

(** [search(self, req)].  [open_db] touches the database connection only
    and is left out. *)
Definition search (self : MappingLookupSearch) (req : request)
  : outcome retval * MappingLookupSearch :=
  match read_request req with
  | Raise e => (Raise e, self)
  | Ok (artist_ids, release_name, recording_name) =>
      search_loop self req release_name recording_name artist_ids
  end.

End search_index.

End search_index.

(** ** search_process.py *)

Module search_process.

Import fuzzy_index search_index.

Section search_process.
Context `{Unicode} `{Database} `{Backend}.
Variable have : bool.

(** Where [mapping_lookup_process] is: blocked in [in_q.get()], between
    [in_q.get()] and the write to [out_d], returned after an exit request,
    or ended by an exception. *)
Inductive phase :=
| Ready
| Processing (req : request)
| Stopped
| Crashed (e : exn).

(** The worker: its phase, its [MappingLookupSearch], the requests it will
    still take from [in_q], in order, and [out_d].  The elapsed-time string
    of an [out_d] value depends on the clock only and is left out. *)
Record worker := {
  ph : phase;
  ms : MappingLookupSearch;
  in_q : list request;
  out_d : gmap Z (retval * Z)
}.

(** [ms = MappingLookupSearch(index_dir, num_shards)], before the loop. *)
Definition start (requests : list request) (out : gmap Z (retval * Z)) : worker :=
  {| ph := Ready;
     ms := {| artist_data := ∅; row_store_reads := [] |};
     in_q := requests;
     out_d := out |}.

(** One transition; [None] when the worker is blocked on an empty queue or
    has ended.  The write to [out_d] reads [req["id"]]. *)
Definition step (w : worker) : option worker :=
  match ph w with
  | Ready =>
      match in_q w with
      | [] => None
      | req :: rest =>
          if has_exit req then
            Some {| ph := Stopped; ms := ms w; in_q := rest; out_d := out_d w |}
          else
            Some {| ph := Processing req; ms := ms w; in_q := rest; out_d := out_d w |}
      end
  | Processing req =>
      match search have (ms w) req with
      | (Ok ret, ms') =>
          match subscript (req_id req) with
          | Ok i =>
              Some {| ph := Ready; ms := ms'; in_q := in_q w;
                      out_d := <[i := (ret, i)]> (out_d w) |}
          | Raise e =>
              Some {| ph := Crashed e; ms := ms'; in_q := in_q w; out_d := out_d w |}
          end
      | (Raise e, ms') =>
          Some {| ph := Crashed e; ms := ms'; in_q := in_q w; out_d := out_d w |}
      end
  | Stopped => None
  | Crashed _ => None
  end.

(** The worker after at most [n] transitions. *)
Fixpoint run (n : nat) (w : worker) : worker :=
  match n with
  | 0 => w
  | S n' =>
      match step w with
      | None => w
      | Some w' => run n' w'
      end
  end.

End search_process.

End search_process.

(** ** Concrete collaborators, for examples *)

Module examples.

Import fuzzy_index search_index search_process.

(** The ideograph U+5317. *)
Definition bei : char := 21271%N.

(** [unidecode] of one character: ASCII is kept, U+5317 becomes ["Bei "]
    as in the table of the package; no other entry is given here. *)
Definition unidecode_char (c : char) : str :=
  if (c <? 128)%N then [c]
  else if (c =? bei)%N then lit "Bei "
  else [].

(** Python's tables on ASCII and on U+5317, a letter without case. *)
#[global] Instance unicode_excerpt : Unicode := {|
  isalnum c := ascii_alnum c || (c =? bei)%N;
  isspace := ascii_space;
  lower := List.map ascii_lower;
  unidecode := flat_map unidecode_char
|}.

(** A backend whose nearest neighbour search answers every query with the
    ids and signed similarities it was created with. *)
Definition fixed_backend (sims : list Q) : Backend := {|
  vectorizer_t := unit;
  matrix_t := unit;
  nmslib_index_t := list Z;
  fit_transform := fun _ => Ok (tt, tt);
  transform := fun _ _ => tt;
  createIndex := fun _ ids => ids;
  knnQueryBatch := fun ids _ k => [(firstn k ids, firstn k sims)]
|}.

(** A row store given as a table of rows by artist. *)
Definition table_db (t : list (Z * list Mapping)) : Database := {|
  select_where_artist_credit_id a :=
    flat_map (fun kv => if (fst kv =? a)%Z then snd kv else []) t
|}.

Definition row (rec rel : Z) (rec_name rel_name : string) (sc : Z) : Mapping :=
  {| recording_id := rec; release_id := rel;
     recording_name := Some (lit rec_name); release_name := Some (lit rel_name);
     score := sc |}.

(** Artist 1 has two recordings on one release; artist 2 has rows whose
    release names have no word character; artist 3 has no rows. *)
#[global] Instance sample_db : Database :=
  table_db [ (1%Z, [ row 10 100 "Let It Be" "Let It Be" 1;
                     row 11 100 "Get Back" "Let It Be" 2 ]);
             (2%Z, [ row 20 200 "War" "..." 1;
                     row 21 201 "!!!" "   " 1 ]) ].

(** A [MappingLookupSearch] as [__init__] leaves it. *)
Definition fresh `{Backend} : MappingLookupSearch :=
  {| artist_data := ∅; row_store_reads := [] |}.

(** The [MappingLookupSearch] with an empty cache that has read the rows
    of the artists [reads], the latest first. *)
Definition after_reads `{Backend} (reads : list Z) : MappingLookupSearch :=
  {| artist_data := ∅; row_store_reads := reads |}.

Definition mk_request (i : Z) (ids : list Z) (rel rec : string) : request :=
  {| req_id := Some i; req_artist_ids := Some ids;
     req_artist_name := Some (Some (lit "The Beatles"));
     req_release_name := Some (Some (lit rel));
     req_recording_name := Some (Some (lit rec));
     has_exit := false |}.

(** The request [{"exit": True}]. *)
Definition exit_request : request :=
  {| req_id := None; req_artist_ids := None;
     req_artist_name := None; req_release_name := None;
     req_recording_name := None; has_exit := true |}.

End examples.

(** ** Vocabulary of the statements *)

Module spec.

Import fuzzy_index search_index search_process.

(** A string or [None] all of whose characters satisfy [p]. *)
Definition all_chars (p : char -> bool) (t : option str) : bool :=
  match t with
  | None => true
  | Some s => forallb p s
  end.

Section spec.
Context `{Unicode} `{Database} `{Backend}.
Variable have : bool.

(** The candidate artists [artist_ids] are all exhausted without a hit:
    each is not found, or found and left by [continue].  The result is the
    [MappingLookupSearch] after them. *)
Fixpoint exhausted (self : MappingLookupSearch) (req : request)
    (release_name recording_name : option str) (artist_ids : list Z)
  : option MappingLookupSearch :=
  match artist_ids with
  | [] => Some self
  | artist_id :: artist_ids' =>
      match load_artist have self artist_id with
      | (Raise _, _) => None
      | (Ok None, self) =>
          exhausted self req release_name recording_name artist_ids'
      | (Ok (Some artist_data), self) =>
          match search_artist artist_data req release_name recording_name with
          | Continue => exhausted self req release_name recording_name artist_ids'
          | _ => None
          end
      end
  end.

(** The entry of [recording_ref] a row contributes. *)
Definition recording_row_of (row : Mapping) : recording_row :=
  {| rr_id := recording_id row; rr_release_id := release_id row;
     rr_score := score row |}.

(** A row is grouped in [recording_ref] under its encoded recording name. *)
Definition grouped (ref : list (option str * list recording_row)) (row : Mapping) : Prop :=
  exists vs, In (encode_string (recording_name row), vs) ref
             /\ In (recording_row_of row) vs.

(** The element of the first [release_data] a row contributes. *)
Definition release_row_of (row : Mapping) : release_row :=
  {| lr_id := release_id row; lr_text := encode_string (release_name row);
     lr_score := score row |}.

(** The rows whose release name encodes to a true value. *)
Definition with_release (rows : list Mapping) : list Mapping :=
  List.filter (fun row => truthy (encode_string (release_name row))) rows.

(** The request dict has the four keys that [search] reads before its
    loop. *)
Definition has_search_keys (req : request) : bool :=
  bool_decide (is_Some (req_artist_ids req))
  && bool_decide (is_Some (req_artist_name req))
  && bool_decide (is_Some (req_release_name req))
  && bool_decide (is_Some (req_recording_name req)).

(** The artist is not in the cache and has no rows in the row store. *)
Definition unknown (self : MappingLookupSearch) (artist_id : Z) : bool :=
  negb (bool_decide (is_Some (artist_data self !! artist_id)))
  && is_empty (select_where_artist_credit_id artist_id).

(** [self] after it has read the rows of the artists [ids], in order. *)
Definition read_more (self : MappingLookupSearch) (ids : list Z)
  : MappingLookupSearch :=
  {| artist_data := artist_data self;
     row_store_reads := rev ids ++ row_store_reads self |}.

(** A request that the worker answers with [None]: it is no exit request,
    has all its keys, and none of its candidate artists has rows. *)
Definition answered_None (req : request) : Prop :=
  has_exit req = false
  /\ is_Some (req_id req)
  /\ has_search_keys req = true
  /\ forall ids, req_artist_ids req = Some ids ->
       Forall (fun a => select_where_artist_credit_id a = []) ids.

End spec.

End spec.

(** ** [MappingLookupSearch.chunks] of search_index.py *)

Module chunking.

(** [l[a:b]]: a negative bound counts from the end, and both bounds are
    cut to the list. *)
Definition slice {A} (l : list A) (a b : Z) : list A :=
  let n := Z.of_nat (length l) in
  let clamp i := if (i <? 0)%Z then Z.max 0 (i + n) else Z.min i n in
  firstn (Z.to_nat (clamp b - clamp a)) (skipn (Z.to_nat (clamp a)) l).

(** [range(n)]. *)
Definition range (n : Z) : list Z := List.map Z.of_nat (seq 0 (Z.to_nat n)).

(** What a generator gives when it is run to its end: the items it
    yields, or the [ZeroDivisionError] of [divmod]. *)
Inductive generated (A : Type) :=
| ZeroDivisionError
| Yielded (items : list A).
Arguments ZeroDivisionError {A}.
Arguments Yielded {A} items.

(** [chunks(l, n)]. *)
Definition chunks {A} (l : list A) (n : Z) : generated (list A) :=
  if (n =? 0)%Z then ZeroDivisionError
  else
    let d := (Z.of_nat (length l) / n)%Z in
    let r := (Z.of_nat (length l) mod n)%Z in
    Yielded
      (List.map
         (fun i =>
            let si := ((d + 1) * (if (i <? r)%Z then i else r)
                       + d * (if (i <? r)%Z then 0 else i - r))%Z in
            slice l si (si + (if (i <? r)%Z then d + 1 else d)))
         (range n)).

End chunking.

(** ** [build_index] and [MappingLookup] of fuzzy_index.py *)

Module mapping_lookup.

Import fuzzy_index.

Definition ARTIST_CONFIDENCE_THRESHOLD : Q := 7 # 10.
Definition CHUNK_SIZE : Z := 100000.

(** [d[k] = v] and [d[k]] on a dict, keys in insertion order. *)
Fixpoint dict_set {K V} `{EqDecision K} (k : K) (v : V) (d : list (K * V))
  : list (K * V) :=
  match d with
  | [] => [(k, v)]
  | (k', v') :: d' =>
      if decide (k = k') then (k', v) :: d' else (k', v') :: dict_set k v d'
  end.

Fixpoint dict_get {K V} `{EqDecision K} (d : list (K * V)) (k : K) : outcome V :=
  match d with
  | [] => Raise KeyError
  | (k', v) :: d' => if decide (k = k') then Ok v else dict_get d' k
  end.

(** A line of the CSV file behind the header, as the [row] dict made of
    it. *)
Record csv_row := {
  c_id : Z;
  c_artist_credit_id : Z;
  c_artist_credit_name : str;
  c_recording_name : str
}.

(** A batch given to [build_index]: artists with their recordings. *)
Definition batch : Type := list (Z * list (str * Z)).

(** The order in which the futures complete. *)
Class Executor := {
  as_completed : list batch -> list batch
}.

Class ExecutorLaw `{Executor} : Prop := {
  as_completed_perm : forall futures, Permutation (as_completed futures) futures
}.

Section mapping_lookup.
Context `{Unicode} `{Backend} `{Executor}.

(** [FuzzyIndex.encode_string] of a [str], which is a [str]. *)
Definition encoded (t : str) : str :=
  match encode_string (Some t) with
  | Some s => s
  | None => []
  end.

(** [build_index(thread_data)], with the module's [have_nmslib] flag. *)
Definition build_index (have : bool) (thread_data : batch)
  : outcome (list (Z * FuzzyIndex)) :=
  for_each
    (fun ad : Z * list (str * Z) =>
       let recording_index := init have in
       if 0 <? length (snd ad) then
         recording_index ← build recording_index (snd ad);
         Ok [(fst ad, recording_index)]
       else Ok [])
    thread_data.

(** The variables of the loop of [create_indexes]; [futures] holds the
    batches submitted, in the order of submission. *)
Record reader := {
  last_artist_credit_id : Z;
  last_row : option csv_row;
  thread_data : batch;
  recording_data : list (str * Z);
  artist_data : list (Z * (str * Z));
  futures : list batch
}.

Definition reader_start : reader :=
  {| last_artist_credit_id := -1; last_row := None; thread_data := [];
     recording_data := []; artist_data := []; futures := [] |}.

(** The loop body for line [i] (the header is line 0). *)
Definition read_line (st : reader) (i : Z) (row : csv_row) : outcome reader :=
  st ← (if ((0 <=? last_artist_credit_id st)%Z
            && negb (last_artist_credit_id st =? c_artist_credit_id row)%Z)%bool
        then
          match last_row st with
          | None => Raise TypeError
          | Some last =>
              Ok {| last_artist_credit_id := last_artist_credit_id st;
                    last_row := last_row st;
                    thread_data :=
                      thread_data st
                      ++ [(last_artist_credit_id st, recording_data st)];
                    recording_data := [];
                    artist_data :=
                      dict_set (c_artist_credit_id last)
                        (encoded (c_artist_credit_name last),
                         c_artist_credit_id last)
                        (artist_data st);
                    futures := futures st |}
          end
        else Ok st);
  let encoded := encoded (c_recording_name row) in
  let recording_data :=
    match encoded with
    | [] => recording_data st
    | _ :: _ => recording_data st ++ [(encoded, c_id row)]
    end in
  let submit := (negb (i =? 0)%Z && (i mod CHUNK_SIZE =? 0)%Z)%bool in
  Ok {| last_artist_credit_id := c_artist_credit_id row;
        last_row := Some row;
        thread_data := if submit then [] else thread_data st;
        recording_data := recording_data;
        artist_data := artist_data st;
        futures := if submit then futures st ++ [thread_data st]
                   else futures st |}.

Fixpoint read_lines (st : reader) (i : Z) (rows : list csv_row)
  : outcome reader :=
  match rows with
  | [] => Ok st
  | row :: rows' => st ← read_line st i row; read_lines st (i + 1) rows'
  end.

(** The artists that the loop registers in [artist_data] when it reads
    [rows] after a line of artist [last]: every artist that is followed by
    a line of another artist. *)
Fixpoint registered (last : Z) (rows : list csv_row) : list Z :=
  match rows with
  | [] => []
  | row :: rows' =>
      (if ((0 <=? last)%Z && negb (last =? c_artist_credit_id row)%Z)%bool
       then [last] else [])
      ++ registered (c_artist_credit_id row) rows'
  end.

(** [last_artist_credit_id] is the artist of [last_row]. *)
Definition reader_ok (st : reader) : Prop :=
  match last_row st with
  | Some last => last_artist_credit_id st = c_artist_credit_id last
  | None => last_artist_credit_id st = (-1)%Z
  end.

(** A [MappingLookup] after [create_indexes]. *)
Record MappingLookup := {
  ml_artist_data : list (Z * (str * Z));
  recording_indexes : gmap Z (option FuzzyIndex);
  artist_index : FuzzyIndex
}.

(** The loop over the results of one future. *)
Definition merge (indexes : gmap Z (option FuzzyIndex))
    (results : list (Z * FuzzyIndex)) : gmap Z (option FuzzyIndex) :=
  fold_left (fun m r => <[fst r := Some (snd r)]> m) results indexes.

(** The loop over the completed futures. *)
Fixpoint collect (have : bool) (completed : list batch)
    (indexes : gmap Z (option FuzzyIndex))
  : outcome (gmap Z (option FuzzyIndex)) :=
  match completed with
  | [] => Ok indexes
  | b :: completed' =>
      results ← build_index have b;
      collect have completed' (merge indexes results)
  end.

(** [create_indexes(self, conn)] on the lines [rows] of the file. *)
Definition create_indexes (have : bool) (rows : list csv_row)
  : outcome MappingLookup :=
  st ← read_lines reader_start 1 rows;
  indexes ← collect have (as_completed (futures st)) ∅;
  artist_index ← build (init have) (List.map snd (artist_data st));
  Ok {| ml_artist_data := artist_data st;
        recording_indexes := indexes;
        artist_index := artist_index |}.

(** An element of the list that [MappingLookup.search] returns. *)
Record found := {
  f_artist_name : str;
  f_artist_credit_id : Z;
  f_artist_confidence : Q;
  f_recording_name : str;
  f_canonical_id : Z;
  f_recording_confidence : Q
}.

(** The loop of [search] over the artist hits. *)
Fixpoint search_artists (self : MappingLookup) (recording_name : str)
    (artists : list hit) (results : list found) : outcome (list found) :=
  match artists with
  | [] => Ok results
  | artist :: artists' =>
      entry ← dict_get (ml_artist_data self) (id artist);
      let artist_text := fst entry in
      if negb (Qle_bool (confidence artist) ARTIST_CONFIDENCE_THRESHOLD) then
        match recording_indexes self !! id artist with
        | None => Raise KeyError
        | Some None => Ok []
        | Some (Some search_index) =>
            rec_results ← search search_index (encoded recording_name);
            search_artists self recording_name artists'
              (results
               ++ List.map
                    (fun result =>
                       {| f_artist_name := artist_text;
                          f_artist_credit_id := id artist;
                          f_artist_confidence := confidence artist;
                          f_recording_name := text result;
                          f_canonical_id := id result;
                          f_recording_confidence := confidence result |})
                    rec_results)
        end
      else search_artists self recording_name artists' results
  end.

(** [search(self, artist_name, recording_name)]. *)
Definition search (self : MappingLookup) (artist_name recording_name : str)
  : outcome (list found) :=
  let artist_name := encoded artist_name in
  let recording_name := encoded recording_name in
  artists ← fuzzy_index.search (artist_index self) artist_name;
  search_artists self recording_name artists [].

End mapping_lookup.

End mapping_lookup.

(** ** More concrete collaborators, for examples *)

Module examples_more.

Import fuzzy_index mapping_lookup examples.

(** An executor whose futures complete in the order of submission. *)
#[global] Instance fifo_executor : Executor := {| as_completed := fun futures => futures |}.

Definition line (i a : Z) (artist recording : string) : csv_row :=
  {| c_id := i; c_artist_credit_id := a;
     c_artist_credit_name := lit artist; c_recording_name := lit recording |}.

(** Two lines of artist 1 and one line of artist 2, behind the header. *)
Definition sample_lines : list csv_row :=
  [ line 10 1 "The Beatles" "Let It Be";
    line 11 1 "The Beatles" "Get Back";
    line 20 2 "War" "Low Rider" ].

(** An index of [fixed_backend] that holds the ids [ids]. *)
Definition fixed_index (sims : list Q) (ids : list Z)
  : @FuzzyIndex (fixed_backend sims) :=
  @Build_FuzzyIndex (fixed_backend sims) true (Some tt) (Some ids).

(** A [MappingLookup] with one artist and one recording, whose backend
    answers every query with similarity -0.9. *)
Definition sample_lookup : @MappingLookup (fixed_backend [(-9 # 10)%Q]) :=
  @Build_MappingLookup (fixed_backend [(-9 # 10)%Q])
    [(1%Z, (lit "thebeatles", 1%Z))]
    {[ 1%Z := Some (fixed_index [(-9 # 10)%Q] [10%Z]) ]}
    (fixed_index [(-9 # 10)%Q] [1%Z]).

End examples_more.

(** ** Properties of fuzzy_index.py *)

Module fuzzy_index_proofs.

Import fuzzy_index spec examples.

Lemma concat_singletons {A} (l : list A) : concat (List.map (fun c => [c]) l) = l.
Proof. induction l as [|x l IH]; simpl; congruence. Qed.

Lemma firstn_3_columns {A} (l : list A) :
  firstn 1 l ++ firstn 1 (skipn 1 l) ++ firstn 1 (skipn 2 l) ++ [] = firstn 3 l.
Proof. destruct l as [|a [|b [|c l]]]; reflexivity. Qed.

Lemma skipn_skipn_comm {A} (i j : nat) (l : list A) :
  skipn i (skipn j l) = skipn j (skipn i l).
Proof. rewrite !skipn_skipn. f_equal. lia. Qed.

(** C8, as amended: for every string, [ngrams] pads it with one leading and
    one trailing space and returns the windows of three characters of the
    padded string, one for each character of the string; so a string of
    length one or more gives at least one trigram. *)
Theorem ngrams_windows_of_padded (s : str) :
  ngrams s 3
  = List.map (fun i => firstn 3 (skipn i ([space] ++ s ++ [space])))
      (seq 0 (length s))
  /\ length (ngrams s 3) = length s.
Proof.
  assert (E : ngrams s 3
              = List.map (fun i => firstn 3 (skipn i ([space] ++ s ++ [space])))
                  (seq 0 (length s))).
  { unfold ngrams, zip_star.
    cbn [seq List.map]. cbv zeta.
    replace (fold_right Nat.min (length ([space] ++ s ++ [space])) _)
      with (length s)
      by (cbn [fold_right]; rewrite !length_skipn, !length_app;
          cbn [length]; lia).
    rewrite List.map_map.
    apply List.map_ext. intros j.
    rewrite concat_singletons. cbn [flat_map].
    rewrite (skipn_skipn_comm j 1), (skipn_skipn_comm j 2).
    apply firstn_3_columns. }
  split; [exact E|].
  rewrite E, length_map, length_seq. reflexivity.
Qed.

(** C8, as stated, fails: the empty string has length less than 2 and
    gives no trigram. *)
Lemma ngrams_empty_string_no_trigram :
  length (@nil char) < 2 /\ ngrams [] 3 = [].
Proof. split; [simpl; lia | reflexivity]. Qed.


(** *** [encode_string] *)

Ltac chars :=
  unfold plain, is_word, is_ascii, ascii_alnum, ascii_space, ascii_lower,
    in_range, underscore, space in *;
  repeat match goal with
    | H : _ && _ = true |- _ => apply andb_true_iff in H; destruct H
    | H : _ || _ = true |- _ => apply orb_true_iff in H; destruct H
    | H : _ || _ = false |- _ => apply orb_false_iff in H; destruct H
    | H : negb _ = true |- _ => apply negb_true_iff in H
    | H : (_ <=? _)%N = true |- _ => apply N.leb_le in H
    | H : (_ <? _)%N = true |- _ => apply N.ltb_lt in H
    | H : (_ =? _)%N = true |- _ => apply N.eqb_eq in H
    | H : (_ =? _)%N = false |- _ => apply N.eqb_neq in H
    end.

Lemma plain_ascii_lower (c : char) : plain c = true -> ascii_lower c = c.
Proof.
  intros Hc. unfold ascii_lower.
  destruct (in_range 65 90 c) eqn:E; [|reflexivity].
  chars; subst; lia.
Qed.

Lemma plain_is_ascii (c : char) : plain c = true -> is_ascii c = true.
Proof. intros Hc. apply N.ltb_lt. chars; subst; lia. Qed.

Lemma plain_not_space (c : char) :
  plain c = true -> (c =? space)%N = false /\ ascii_space c = false.
Proof.
  intros Hc. split.
  - apply N.eqb_neq. chars; subst; lia.
  - unfold ascii_space, in_range.
    apply orb_false_iff; split; apply andb_false_iff;
      rewrite !N.leb_gt; chars; subst; lia.
Qed.

Lemma plain_ascii_alnum (c : char) :
  plain c = true -> ascii_alnum c || (c =? underscore)%N = true.
Proof.
  unfold plain, ascii_alnum. intros Hc.
  destruct (in_range 48 57 c), (in_range 97 122 c), (in_range 65 90 c),
    (c =? underscore)%N; simpl in *; congruence.
Qed.

(** An ASCII word character that is not a space becomes plain in lower case. *)
Lemma ascii_word_lower_plain (c : char) :
  ascii_alnum c || (c =? underscore)%N = true -> plain (ascii_lower c) = true.
Proof.
  intros Hc. unfold ascii_lower.
  destruct (in_range 65 90 c) eqn:E.
  - unfold plain. apply orb_true_iff. left. apply orb_true_iff. right.
    unfold in_range in *. apply andb_true_iff in E as [E1 E2].
    apply N.leb_le in E1, E2.
    apply andb_true_iff; split; apply N.leb_le; lia.
  - unfold plain, ascii_alnum in *. rewrite E in Hc.
    destruct (in_range 48 57 c), (in_range 97 122 c), (c =? underscore)%N;
      simpl in *; congruence.
Qed.

Lemma ascii_word_not_space (c : char) :
  ascii_alnum c || (c =? underscore)%N = true -> ascii_space c = false.
Proof.
  intros Hc. unfold ascii_space, in_range.
  apply orb_false_iff; split; apply andb_false_iff;
    rewrite !N.leb_gt; chars; subst; lia.
Qed.

Lemma filter_all {A} (f : A -> bool) (l : list A) :
  Forall (fun x => f x = true) l -> List.filter f l = l.
Proof.
  induction 1 as [|x l Hx _ IH]; simpl; [reflexivity|].
  rewrite Hx, IH. reflexivity.
Qed.

Section encode_proofs.
Context `{Unicode} `{!AsciiUnicode}.

Lemma lstrip_no_space (s : str) :
  Forall (fun c => isspace c = false) s -> lstrip s = s.
Proof. destruct 1 as [|c s Hc _]; simpl; [reflexivity|]. rewrite Hc. reflexivity. Qed.

Lemma strip_no_space (s : str) :
  Forall (fun c => isspace c = false) s -> strip s = s.
Proof.
  intros Hs. unfold strip. rewrite (lstrip_no_space s Hs).
  rewrite lstrip_no_space by (apply List.Forall_rev; exact Hs).
  apply rev_involutive.
Qed.

Lemma forallb_Forall' {A} (f : A -> bool) (l : list A) :
  forallb f l = true <-> Forall (fun x => f x = true) l.
Proof.
  rewrite forallb_forall, List.Forall_forall. reflexivity.
Qed.

(** Plain text is a fixed point of [encode_string]. *)
Lemma encode_string_plain (s : str) :
  forallb plain s = true -> encode_string (Some s) = Some s.
Proof.
  intros Hs. apply forallb_Forall' in Hs.
  assert (Ha : forallb is_ascii s = true).
  { apply forallb_Forall'. eapply List.Forall_impl; [|exact Hs].
    intros c. apply plain_is_ascii. }
  unfold encode_string. f_equal.
  assert (E1 : sub_non_word s = s).
  { apply filter_all. eapply List.Forall_impl; [|exact Hs]. intros c Hc.
    unfold is_word. rewrite isalnum_ascii by (apply plain_is_ascii; exact Hc).
    rewrite (plain_ascii_alnum c Hc). reflexivity. }
  assert (E2 : sub_spaces s = s).
  { apply filter_all. eapply List.Forall_impl; [|exact Hs]. intros c Hc.
    destruct (plain_not_space c Hc) as [-> _]. reflexivity. }
  assert (E3 : strip s = s).
  { apply strip_no_space. eapply List.Forall_impl; [|exact Hs]. intros c Hc.
    rewrite isspace_ascii by (apply plain_is_ascii; exact Hc).
    apply plain_not_space; exact Hc. }
  rewrite E1, E2, E3, (lower_ascii s Ha).
  assert (E4 : List.map ascii_lower s = s).
  { clear -Hs. induction Hs as [|c s Hc _ IH]; simpl; [reflexivity|].
    rewrite (plain_ascii_lower c Hc), IH. reflexivity. }
  rewrite E4. apply unidecode_ascii. exact Ha.
Qed.

(** ASCII text is encoded to plain text. *)
Lemma encode_string_ascii (t : str) :
  forallb is_ascii t = true ->
  exists s, encode_string (Some t) = Some s /\ forallb plain s = true.
Proof.
  intros Ht. apply forallb_Forall' in Ht.
  set (w := sub_spaces (sub_non_word t)).
  assert (Hw : Forall (fun c => is_ascii c = true
                         /\ ascii_alnum c || (c =? underscore)%N = true) w).
  { apply List.Forall_forall. intros c Hc.
    unfold w, sub_spaces, sub_non_word in Hc.
    apply filter_In in Hc as [Hc Hns]. apply filter_In in Hc as [Hc Hw].
    assert (Hca : is_ascii c = true)
      by (exact (proj1 (List.Forall_forall _ _) Ht c Hc)).
    split; [exact Hca|].
    unfold is_word in Hw. rewrite (isalnum_ascii c Hca) in Hw.
    apply negb_true_iff in Hns. rewrite Hns, orb_false_r in Hw. exact Hw. }
  assert (E3 : strip w = w).
  { apply strip_no_space. eapply List.Forall_impl; [|exact Hw].
    intros c [Hca Hcw]. rewrite (isspace_ascii c Hca).
    apply ascii_word_not_space; exact Hcw. }
  assert (Hwa : forallb is_ascii w = true).
  { apply forallb_Forall'. eapply List.Forall_impl; [|exact Hw]. intros c [Hc _]; exact Hc. }
  assert (Hp : forallb plain (List.map ascii_lower w) = true).
  { apply forallb_Forall'. apply List.Forall_map.
    eapply List.Forall_impl; [|exact Hw]. intros c [_ Hc].
    apply ascii_word_lower_plain; exact Hc. }
  exists (List.map ascii_lower w). split; [|exact Hp].
  unfold encode_string. fold w. rewrite E3, (lower_ascii w Hwa). f_equal.
  apply unidecode_ascii. apply forallb_Forall'.
  apply forallb_Forall' in Hp. eapply List.Forall_impl; [|exact Hp].
  intros c. apply plain_is_ascii.
Qed.

(** C7, as amended: for every text that is ASCII, or whose normal form has
    only lower-case ASCII letters, digits and underscores, and for [None],
    normalizing the normal form again changes nothing. *)
Theorem encode_string_idempotent_ascii (t : option str) :
  all_chars is_ascii t = true \/ all_chars plain (encode_string t) = true ->
  encode_string (encode_string t) = encode_string t.
Proof.
  destruct t as [t|]; [|reflexivity].
  intros [Ht|Ht].
  - destruct (encode_string_ascii t Ht) as (s & -> & Hs).
    apply encode_string_plain; exact Hs.
  - remember (encode_string (Some t)) as e eqn:Ee.
    destruct e as [s|]; [|reflexivity].
    apply encode_string_plain; exact Ht.
Qed.

End encode_proofs.

#[global] Instance unicode_excerpt_ascii : @AsciiUnicode unicode_excerpt.
Proof.
  split.
  - intros c Hc. cbn [isalnum unicode_excerpt].
    replace (c =? bei)%N with false; [apply orb_false_r|].
    symmetry. apply N.eqb_neq. unfold is_ascii, bei in *.
    apply N.ltb_lt in Hc. lia.
  - reflexivity.
  - reflexivity.
  - intros s Hs. cbn [unidecode unicode_excerpt].
    induction s as [|c s IH]; [reflexivity|].
    cbn [forallb] in Hs. apply andb_true_iff in Hs as [Hc Hs].
    cbn [flat_map]. rewrite (IH Hs). unfold unidecode_char.
    unfold is_ascii in Hc. rewrite Hc. reflexivity.
Qed.

Lemma encode_string_idempotent_ascii_witness :
  all_chars is_ascii (Some (lit "The Beatles!")) = true /\
  encode_string (encode_string (Some (lit "The Beatles!")))
  = encode_string (Some (lit "The Beatles!")).
Proof.
  split; [reflexivity|].
  apply (@encode_string_idempotent_ascii unicode_excerpt unicode_excerpt_ascii).
  left. reflexivity.
Defined.

(** C7, as stated, fails: U+5317 is a word character that [unidecode]
    turns into ["Bei "], which is normalized further to ["bei"]. *)
Lemma encode_string_not_idempotent :
  encode_string (Some [bei]) = Some (lit "Bei ") /\
  encode_string (encode_string (Some [bei])) = Some (lit "bei") /\
  encode_string (encode_string (Some [bei])) <> encode_string (Some [bei]).
Proof.
  split; [reflexivity|]. split; [reflexivity|].
  vm_compute. discriminate.
Qed.

(** *** [FuzzyIndex] *)

Section FuzzyIndex_proofs.
Context `{Backend}.

Lemma search_never_built (query_string : str) :
  search (init true) query_string = Raise AttributeError.
Proof. reflexivity. Qed.

(** C5, as amended: on an index whose backend is unavailable, [build] does
    nothing and [search] returns the empty list for every query, built or
    not; an index that was never built raises when the backend is
    available. *)
Theorem search_without_backend (self : FuzzyIndex)
    (search_data : list (str * Z)) (query_string : str) :
  have_nmslib self = false ->
  build self search_data = Ok self /\
  search self query_string = Ok [] /\
  search (init true) query_string = Raise AttributeError.
Proof.
  intros Hn. unfold build, search. rewrite Hn. simpl. auto.
Qed.

(** The part of C6 that holds: a confidence is the absolute value of a
    similarity the backend returned, so it is not negative. *)
Lemma search_confidence_abs (self : FuzzyIndex) (query_string : str)
    (output : list hit) :
  search self query_string = Ok output ->
  Forall (fun h => 0 <= confidence h /\ text h = query_string)%Q output.
Proof.
  unfold search.
  destruct (negb (have_nmslib self)).
  { intros [= <-]. constructor. }
  destruct (vectorizer self) as [v|]; [|discriminate].
  destruct (index self) as [ix|]; [|discriminate].
  destruct (getitem _ 0) as [r0|e]; [|discriminate].
  cbn. intros [= <-].
  apply List.Forall_map. apply List.Forall_forall. intros ic _. cbn.
  split; [apply Qabs_nonneg | reflexivity].
Qed.

End FuzzyIndex_proofs.

Lemma search_without_backend_witness :
  have_nmslib (@init (fixed_backend []) false) = false /\
  @search (fixed_backend []) (init false) (lit "war") = Ok [].
Proof.
  split; [reflexivity|].
  apply (@search_without_backend (fixed_backend []) (init false) [] (lit "war")).
  reflexivity.
Defined.

(** C5, as stated, fails: with the backend available, searching an index
    on which [build] was never called raises. *)
Lemma search_unbuilt_raises :
  @search (fixed_backend []) (init true) (lit "war") = Raise AttributeError.
Proof. reflexivity. Qed.

(** C6 fails on the code: [search] has no [min_confidence] parameter.  The
    call of [search_index.py], with the keyword, raises; without it, a hit
    of confidence 0.3 is returned though the caller asks for 0.5. *)
Theorem search_has_no_min_confidence :
  exists self : @FuzzyIndex (fixed_backend [(-3 # 10)%Q]),
    build (init true) [(lit "war", 0%Z)] = Ok self /\
    call_search self (lit "war") [("min_confidence"%string, (5 # 10)%Q)]
    = Raise TypeError /\
    search self (lit "war")
    = Ok [{| confidence := (3 # 10)%Q; id := 0%Z; text := lit "war" |}] /\
    (3 # 10 < 5 # 10)%Q.
Proof.
  eexists. split; [reflexivity|]. split; [reflexivity|].
  split; [reflexivity|]. reflexivity.
Qed.

End fuzzy_index_proofs.

(** ** Properties of search_index.py *)

Module search_index_proofs.

Import fuzzy_index search_index spec examples.

(** *** The insertion-ordered [defaultdict(list)] *)

Lemma dd_append_new {K V} `{EqDecision K} (k : K) (v : V) (d : list (K * list V)) :
  exists vs, In (k, vs) (dd_append k v d) /\ In v vs.
Proof.
  induction d as [|[k' vs'] d IH]; simpl.
  - exists [v]. split; left; reflexivity.
  - destruct (decide (k = k')) as [<-|Hne].
    + exists (vs' ++ [v]). split; [left; reflexivity|].
      apply in_or_app. right. left. reflexivity.
    + destruct IH as (vs & Hin & Hv). exists vs. split; [right; exact Hin|exact Hv].
Qed.

Lemma dd_append_old {K V} `{EqDecision K} (k k0 : K) (v v0 : V)
    (d : list (K * list V)) (vs0 : list V) :
  In (k0, vs0) d -> In v0 vs0 ->
  exists vs, In (k0, vs) (dd_append k v d) /\ In v0 vs.
Proof.
  induction d as [|[k' vs'] d IH]; simpl; [tauto|].
  intros [E|Hin] Hv.
  - injection E as -> ->.
    destruct (decide (k = k0)) as [_|_].
    + exists (vs0 ++ [v]). split; [left; reflexivity|].
      apply in_or_app. left. exact Hv.
    + exists vs0. split; [left; reflexivity|exact Hv].
  - destruct (decide (k = k')) as [_|_].
    + exists vs0. split; [right; exact Hin|exact Hv].
    + destruct (IH Hin Hv) as (vs & Hin' & Hv').
      exists vs. split; [right; exact Hin'|exact Hv'].
Qed.

Lemma dd_append_inv {K V} `{EqDecision K} (k k0 : K) (v v0 : V)
    (d : list (K * list V)) (vs0 : list V) :
  In (k0, vs0) (dd_append k v d) -> In v0 vs0 ->
  (k0 = k /\ v0 = v) \/ exists vs, In (k0, vs) d /\ In v0 vs.
Proof.
  induction d as [|[k' vs'] d IH]; simpl.
  - intros [E|[]] Hv. injection E as <- <-. destruct Hv as [<-|[]]. left. auto.
  - destruct (decide (k = k')) as [<-|Hne]; simpl.
    + intros [E|Hin] Hv.
      * injection E as <- <-.
        apply in_app_or in Hv as [Hv|[<-|[]]]; [|left; auto].
        right. exists vs'. auto.
      * right. exists vs0. auto.
    + intros [E|Hin] Hv.
      * injection E as <- <-. right. exists vs'. auto.
      * destruct (IH Hin Hv) as [?|(vs & ? & ?)]; [left; assumption|].
        right. exists vs. auto.
Qed.

Section load_artist_proofs.
Context `{Unicode} `{Database} `{Backend}.
Variable have : bool.

Lemma read_row_groups (acc : rows_acc) (row : Mapping) :
  grouped (acc_recording_ref (read_row acc row)) row.
Proof. apply dd_append_new. Qed.

Lemma read_row_keeps (acc : rows_acc) (row row0 : Mapping) :
  grouped (acc_recording_ref acc) row0 ->
  grouped (acc_recording_ref (read_row acc row)) row0.
Proof. intros (vs & Hin & Hv). eapply dd_append_old; eassumption. Qed.

Lemma fold_read_row_keeps (rows : list Mapping) (acc : rows_acc) (row0 : Mapping) :
  grouped (acc_recording_ref acc) row0 ->
  grouped (acc_recording_ref (fold_left read_row rows acc)) row0.
Proof.
  revert acc. induction rows as [|row rows IH]; intros acc Hg; simpl; [exact Hg|].
  apply IH. apply read_row_keeps. exact Hg.
Qed.

Lemma fold_read_row_groups (rows : list Mapping) (acc : rows_acc) (row0 : Mapping) :
  In row0 rows ->
  grouped (acc_recording_ref (fold_left read_row rows acc)) row0.
Proof.
  revert acc. induction rows as [|row rows IH]; intros acc; simpl; [tauto|].
  intros [->|Hin].
  - apply fold_read_row_keeps. apply read_row_groups.
  - apply IH. exact Hin.
Qed.

(** Rows whose release name encodes to a false value add no release. *)
Lemma fold_read_row_no_release (rows : list Mapping) (acc : rows_acc) :
  Forall (fun row => truthy (encode_string (release_name row)) = false) rows ->
  acc_release_data (fold_left read_row rows acc) = acc_release_data acc.
Proof.
  intros Hrows. revert acc.
  induction Hrows as [|row rows Hrow _ IH]; intros acc; simpl; [reflexivity|].
  rewrite IH. unfold read_row. cbn [acc_release_data]. rewrite Hrow. reflexivity.
Qed.

Lemma group_recordings_In (ref : list (option str * list recording_row))
    (k : option str) (vs : list recording_row) :
  In (k, vs) ref ->
  exists g, In g (group_recordings ref) /\ rg_text g = k /\ rg_recording_data g = vs.
Proof.
  intros Hin. apply list_elem_of_In in Hin.
  apply list_elem_of_lookup in Hin as [i Hi].
  exists {| rg_text := k; rg_id := Z.of_nat i; rg_recording_data := vs |}.
  split; [|split; reflexivity].
  apply list_elem_of_In. apply list_elem_of_lookup. exists i.
  unfold group_recordings. rewrite list_lookup_imap, Hi. reflexivity.
Qed.

(** Every row read has a group in [recording_data], whatever its recording
    name encodes to. *)
Lemma rows_all_grouped (rows : list Mapping) (row : Mapping) :
  In row rows ->
  exists g, In g (group_recordings (acc_recording_ref (read_rows rows)))
            /\ rg_text g = encode_string (recording_name row)
            /\ In (recording_row_of row) (rg_recording_data g).
Proof.
  intros Hin.
  destruct (fold_read_row_groups rows
              {| acc_recording_ref := []; acc_recording_releases := ∅;
                 acc_release_data := [] |} row Hin) as (vs & Hk & Hv).
  destruct (group_recordings_In _ _ _ Hk) as (g & Hg & Ht & Hd).
  exists g. split; [exact Hg|]. split; [exact Ht|]. rewrite Hd. exact Hv.
Qed.

(** [recording_data] is empty only when there is no row. *)
Lemma recording_data_empty (rows : list Mapping) :
  is_empty (group_recordings (acc_recording_ref (read_rows rows))) = is_empty rows.
Proof.
  destruct rows as [|row0 rows]; [reflexivity|].
  destruct (rows_all_grouped (row0 :: rows) row0 (or_introl eq_refl))
    as (g & Hg & _).
  destruct (group_recordings _); [destruct Hg|reflexivity].
Qed.

(** *** The three ways [load_artist] ends *)

Lemma load_artist_cached (self : MappingLookupSearch) (artist_credit_id : Z)
    (e : entry) :
  artist_data self !! artist_credit_id = Some e ->
  load_artist have self artist_credit_id = (Ok (Some e), self).
Proof. intros Hhit. unfold load_artist. rewrite Hhit. reflexivity. Qed.

(** For an artist that is not cached, the rows are read; without rows the
    result is [None], and with rows the first [build] call raises. *)
Lemma load_artist_uncached (self : MappingLookupSearch) (artist_credit_id : Z) :
  artist_data self !! artist_credit_id = None ->
  load_artist have self artist_credit_id
  = (if is_empty (select_where_artist_credit_id artist_credit_id)
     then Ok None else Raise TypeError,
     {| artist_data := artist_data self;
        row_store_reads := artist_credit_id :: row_store_reads self |}).
Proof.
  intros Hmiss. unfold load_artist. rewrite Hmiss.
  rewrite recording_data_empty.
  destruct (is_empty (select_where_artist_credit_id artist_credit_id));
    reflexivity.
Qed.

Lemma is_empty_false {A} (l : list A) : l <> [] -> is_empty l = false.
Proof. destruct l; [congruence|reflexivity]. Qed.


(** C3, as amended: for an artist that is not cached and has no rows,
    [load_artist] returns [None] after one read of the row store and leaves
    the cache as it was; the next call reads the row store again. *)
Theorem load_artist_no_rows (self : MappingLookupSearch) (artist_credit_id : Z) :
  artist_data self !! artist_credit_id = None ->
  select_where_artist_credit_id artist_credit_id = [] ->
  let self1 := {| artist_data := artist_data self;
                  row_store_reads := artist_credit_id :: row_store_reads self |} in
  let self2 := {| artist_data := artist_data self;
                  row_store_reads :=
                    artist_credit_id :: artist_credit_id :: row_store_reads self |} in
  load_artist have self artist_credit_id = (Ok None, self1)
  /\ load_artist have self1 artist_credit_id = (Ok None, self2).
Proof.
  intros Hmiss Hrows. unfold load_artist. cbn [artist_data row_store_reads].
  rewrite Hmiss, Hrows. split; reflexivity.
Qed.

(** C10: the code does not return [None] here.  For an artist that is not
    cached, has rows, and whose release names all encode to the empty
    string (or to another false value), every row, also one whose
    recording name encodes to the empty string or [None], is in a group of
    [recording_data], which is therefore not empty, and the final
    [release_data] is empty; but [load_artist] raises [TypeError] at
    [recording_index.build(recording_data, "text")], before it looks at
    [release_data].  Nothing is cached. *)
Theorem load_artist_no_release_names_raises (self : MappingLookupSearch)
    (artist_credit_id : Z) :
  let rows := select_where_artist_credit_id artist_credit_id in
  let recording_data := group_recordings (acc_recording_ref (read_rows rows)) in
  let release_data :=
    group_releases (ref_releases (acc_release_data (read_rows rows))) in
  artist_data self !! artist_credit_id = None ->
  rows <> [] ->
  Forall (fun row => truthy (encode_string (release_name row)) = false) rows ->
  load_artist have self artist_credit_id
  = (Raise TypeError,
     {| artist_data := artist_data self;
        row_store_reads := artist_credit_id :: row_store_reads self |})
  /\ recording_data <> []
  /\ release_data = []
  /\ forall row, In row rows ->
       exists g, In g recording_data
                 /\ rg_text g = encode_string (recording_name row)
                 /\ In (recording_row_of row) (rg_recording_data g).
Proof.
  intros rows recording_data release_data Hmiss Hrows Hrel.
  split; [|split; [|split]].
  - rewrite load_artist_uncached by exact Hmiss.
    fold rows. rewrite (is_empty_false _ Hrows). reflexivity.
  - pose proof (recording_data_empty rows) as He.
    rewrite (is_empty_false _ Hrows) in He. fold recording_data in He.
    intros Hnil. rewrite Hnil in He. discriminate.
  - unfold release_data, read_rows.
    rewrite (fold_read_row_no_release rows _ Hrel). reflexivity.
  - intros row. apply rows_all_grouped.
Qed.

End load_artist_proofs.


Lemma load_artist_no_rows_witness :
  artist_data (@fresh (fixed_backend [1%Q])) !! 3%Z = None
  /\ select_where_artist_credit_id 3 = []
  /\ load_artist true (@fresh (fixed_backend [1%Q])) 3
     = (Ok None, after_reads [3%Z])
  /\ load_artist true (@after_reads (fixed_backend [1%Q]) [3%Z]) 3
     = (Ok None, after_reads [3%Z; 3%Z]).
Proof.
  split; [reflexivity|]. split; [reflexivity|].
  apply (load_artist_no_rows true (@fresh (fixed_backend [1%Q])) 3); reflexivity.
Defined.

(** C3, as stated, fails: artist 3 has no rows, the first call returns
    [None] and leaves the cache as it was before the attempt, and the
    second call reads the row store a second time. *)
Lemma load_artist_not_found_not_memoized :
  let self := @fresh (fixed_backend [1%Q]) in
  select_where_artist_credit_id 3 = []
  /\ fst (load_artist true self 3) = Ok None
  /\ artist_data (snd (load_artist true self 3)) = artist_data self
  /\ row_store_reads (snd (load_artist true self 3)) = [3%Z]
  /\ row_store_reads (snd (load_artist true (snd (load_artist true self 3)) 3))
     = [3%Z; 3%Z].
Proof. repeat split. Qed.

Lemma load_artist_no_release_names_raises_witness :
  load_artist true (@fresh (fixed_backend [1%Q])) 2
  = (Raise TypeError, after_reads [2%Z])
  /\ group_releases
       (ref_releases
          (acc_release_data (read_rows (select_where_artist_credit_id 2)))) = []
  /\ exists g, In g (group_recordings
                       (acc_recording_ref
                          (read_rows (select_where_artist_credit_id 2))))
               /\ rg_text g = Some []
               /\ In {| rr_id := 21; rr_release_id := 201; rr_score := 1 |}
                    (rg_recording_data g).
Proof.
  destruct (load_artist_no_release_names_raises true
              (@fresh (fixed_backend [1%Q])) 2)
    as (Hl & _ & Hr & Hg); [reflexivity | discriminate | repeat constructor |].
  split; [exact Hl|]. split; [exact Hr|].
  apply (Hg (row 21 201 "!!!" "   " 1)). right. left. reflexivity.
Defined.

End search_index_proofs.

Module search_proofs.

Import fuzzy_index search_index spec examples.

Section search_proofs.
Context `{Unicode} `{Database} `{Backend}.
Variable have : bool.

(** *** The calls of [FuzzyIndex.search] *)

(** The keyword [min_confidence] cannot be bound, whatever the index and
    the query are. *)
Lemma search_min_confidence_raises (index : FuzzyIndex) (query : option str)
    (c : Q) :
  search_min_confidence index query c = Raise TypeError.
Proof. destruct query; reflexivity. Qed.

Lemma recording_stage_raises (e : entry) (name : option str) :
  recording_stage e name = Raise TypeError.
Proof.
  unfold recording_stage. rewrite search_min_confidence_raises. reflexivity.
Qed.

Lemma release_stage_raises (e : entry) (name : option str) :
  release_stage e name = Raise TypeError.
Proof.
  unfold release_stage. rewrite search_min_confidence_raises. reflexivity.
Qed.

(** The loop body never gets past the recording stage. *)
Lemma search_artist_throws (e : entry) (req : request)
    (release_name recording_name : option str) :
  search_artist e req release_name recording_name = Throw TypeError.
Proof. unfold search_artist. rewrite recording_stage_raises. reflexivity. Qed.

(** *** The loop over the candidate artists *)

Lemma unknown_spec (self : MappingLookupSearch) (a : Z) :
  unknown self a = true
  <-> artist_data self !! a = None /\ select_where_artist_credit_id a = [].
Proof.
  unfold unknown. rewrite andb_true_iff, negb_true_iff, bool_decide_eq_false.
  rewrite <- eq_None_not_Some.
  destruct (select_where_artist_credit_id a); cbn; intuition congruence.
Qed.


Lemma read_more_cons (self : MappingLookupSearch) (a : Z) (ids : list Z) :
  read_more {| artist_data := artist_data self;
               row_store_reads := a :: row_store_reads self |} ids
  = read_more self (a :: ids).
Proof.
  unfold read_more. cbn [artist_data row_store_reads rev].
  rewrite <- app_assoc. reflexivity.
Qed.

(** One iteration for an artist that is not cached and has no rows. *)
Lemma search_loop_skip (self : MappingLookupSearch) (req : request)
    (release_name recording_name : option str) (a : Z) (rest : list Z) :
  unknown self a = true ->
  search_loop have self req release_name recording_name (a :: rest)
  = search_loop have (read_more self [a]) req release_name recording_name rest.
Proof.
  intros Hu. apply unknown_spec in Hu as [Hmiss Hrows].
  cbn [search_loop]. rewrite (search_index_proofs.load_artist_uncached have)
    by exact Hmiss.
  rewrite Hrows. reflexivity.
Qed.

(** One iteration for any other artist: it ends the search. *)
Lemma search_loop_stop (self : MappingLookupSearch) (req : request)
    (release_name recording_name : option str) (a : Z) (rest : list Z) :
  unknown self a = false ->
  search_loop have self req release_name recording_name (a :: rest)
  = (Raise TypeError,
     if bool_decide (is_Some (artist_data self !! a)) then self
     else read_more self [a]).
Proof.
  intros Hu. cbn [search_loop].
  destruct (artist_data self !! a) as [e|] eqn:Hlook.
  - rewrite (search_index_proofs.load_artist_cached have _ _ e Hlook).
    rewrite search_artist_throws.
    rewrite bool_decide_eq_true_2 by (eexists; reflexivity). reflexivity.
  - rewrite (search_index_proofs.load_artist_uncached have) by exact Hlook.
    unfold unknown in Hu. rewrite Hlook in Hu.
    rewrite bool_decide_eq_false_2 in Hu by (intros [? ?]; discriminate).
    cbn [negb andb] in Hu. rewrite Hu.
    rewrite bool_decide_eq_false_2 by (intros [? ?]; discriminate).
    reflexivity.
Qed.

Lemma search_loop_unknown (self : MappingLookupSearch) (req : request)
    (release_name recording_name : option str) (ids rest : list Z) :
  Forall (fun a => unknown self a = true) ids ->
  search_loop have self req release_name recording_name (ids ++ rest)
  = search_loop have (read_more self ids) req release_name recording_name rest.
Proof.
  intros Hids. revert self Hids.
  induction ids as [|a ids IH]; intros self Hids.
  - destruct self. reflexivity.
  - inversion Hids as [|? ? Ha Hids']; subst.
    cbn [app]. rewrite search_loop_skip by exact Ha.
    rewrite IH by exact Hids'.
    unfold read_more at 2. cbn [rev app]. rewrite read_more_cons. reflexivity.
Qed.

Lemma search_loop_exhausted (self self' : MappingLookupSearch) (req : request)
    (release_name recording_name : option str) (ids rest : list Z) :
  exhausted have self req release_name recording_name ids = Some self' ->
  search_loop have self req release_name recording_name (ids ++ rest)
  = search_loop have self' req release_name recording_name rest.
Proof.
  revert self. induction ids as [|a ids IH]; intros self; simpl.
  - intros [= ->]. reflexivity.
  - destruct (load_artist have self a) as [[[e|]|x] self1].
    + destruct (search_artist e req release_name recording_name);
        try discriminate. apply IH.
    + apply IH.
    + discriminate.
Qed.

(** When every candidate artist is exhausted, the loop ends and the
    function returns without a value. *)
Lemma search_exhausted_None (self self' : MappingLookupSearch) (req : request)
    (ids : list Z) (artist_name release_name recording_name : option str) :
  req_artist_ids req = Some ids ->
  req_artist_name req = Some artist_name ->
  req_release_name req = Some release_name ->
  req_recording_name req = Some recording_name ->
  exhausted have self req (encode_string release_name)
    (encode_string recording_name) ids = Some self' ->
  search have self req = (Ok RetNone, self').
Proof.
  intros Hi Ha Hl Hr Hex. unfold search, read_request.
  rewrite Hi, Ha, Hl, Hr. cbn.
  rewrite <- (app_nil_r ids).
  rewrite (search_loop_exhausted _ _ _ _ _ _ [] Hex). reflexivity.
Qed.

(** The request as [search] reads it. *)
Lemma read_request_keys (req : request) :
  has_search_keys req = true ->
  exists ids release_name recording_name,
    req_artist_ids req = Some ids
    /\ read_request req = Ok (ids, release_name, recording_name).
Proof.
  unfold has_search_keys, read_request.
  rewrite !andb_true_iff, !bool_decide_eq_true.
  intros [[[[ids ->] [an ->]] [ln ->]] [rn ->]].
  eexists _, _, _. split; reflexivity.
Qed.

Lemma read_request_no_key (req : request) :
  has_search_keys req = false -> read_request req = Raise KeyError.
Proof.
  unfold has_search_keys, read_request.
  destruct (req_artist_ids req); [|reflexivity].
  destruct (req_artist_name req); [|reflexivity].
  destruct (req_release_name req); [|reflexivity].
  destruct (req_recording_name req); [|reflexivity].
  rewrite !bool_decide_eq_true_2 by (eexists; reflexivity). discriminate.
Qed.



End search_proofs.


(** C2 fails on the code: when every candidate artist is exhausted,
    [search] reaches the end of its body and returns [None], not the empty
    list.  So it is for a request without candidate artists, for one whose
    only candidate artist has no rows, and for one with two such
    candidates, whatever the backend is. *)
Theorem search_without_hit_returns_None :
  forall (backend : Backend) (have : bool),
  let req0 := mk_request 6 [] "Let It Be" "Get Back" in
  let req1 := mk_request 7 [3]%Z "Let It Be" "Get Back" in
  let req2 := mk_request 8 [3; 4]%Z "Let It Be" "Get Back" in
  select_where_artist_credit_id 3 = []
  /\ select_where_artist_credit_id 4 = []
  /\ search have fresh req0 = (Ok RetNone, fresh)
  /\ search have fresh req1 = (Ok RetNone, after_reads [3%Z])
  /\ exhausted have fresh req1 (Some (lit "letitbe")) (Some (lit "getback")) [3%Z]
     = Some (after_reads [3%Z])
  /\ search have fresh req2 = (Ok RetNone, after_reads [4; 3]%Z)
  /\ exhausted have fresh req2 (Some (lit "letitbe")) (Some (lit "getback"))
       [3; 4]%Z
     = Some (after_reads [4; 3]%Z)
  /\ RetNone <> RetList [].
Proof.
  intros backend have. cbv zeta.
  repeat (split; [reflexivity|]). discriminate.
Qed.

End search_proofs.

(** ** Properties of search_process.py *)

Module search_process_proofs.

Import fuzzy_index search_index search_process spec examples.

Section worker_proofs.
Context `{Unicode} `{Database} `{Backend}.
Variable have : bool.

Lemma run_S (n : nat) (w w' : worker) :
  step have w = Some w' -> run have (S n) w = run have n w'.
Proof. intros Hs. simpl. rewrite Hs. reflexivity. Qed.

Lemma run_stuck (n : nat) (w : worker) : step have w = None -> run have n w = w.
Proof. intros Hs. destruct n; simpl; [|rewrite Hs]; reflexivity. Qed.

Lemma run_add (n m : nat) (w : worker) :
  run have (n + m) w = run have m (run have n w).
Proof.
  revert w. induction n as [|n IH]; intros w; simpl; [reflexivity|].
  destruct (step have w) as [w'|] eqn:Es; [apply IH|].
  symmetry. apply run_stuck. exact Es.
Qed.

(** A transition is one of: a request is taken in [Ready] and processing
    starts, or it is the exit request and the worker stops; or the request
    in process is answered, with one write to [out_d] under its id, or an
    exception ends the worker. *)
Lemma step_alternates (w w' : worker) :
  step have w = Some w' ->
  (ph w = Ready /\ out_d w' = out_d w /\
   exists req, in_q w = req :: in_q w' /\
     ph w' = (if has_exit req then Stopped else Processing req))
  \/ (exists req, ph w = Processing req /\ in_q w' = in_q w /\
        ((ph w' = Ready /\
          exists ret i, req_id req = Some i
                        /\ out_d w' = <[i := (ret, i)]> (out_d w))
         \/ (exists e, ph w' = Crashed e /\ out_d w' = out_d w))).
Proof.
  unfold step. destruct (ph w) as [|req| |e] eqn:Ep; try discriminate.
  - destruct (in_q w) as [|req rest] eqn:Eq; [discriminate|].
    intros Hs. left. split; [reflexivity|].
    destruct (has_exit req) eqn:Ex; injection Hs as <-; cbn;
      (split; [reflexivity|]); exists req; rewrite Ex; auto.
  - destruct (search have (ms w) req) as [[ret|e] ms'] eqn:Es.
    + destruct (req_id req) as [i|] eqn:Ei; cbn; intros [= <-]; right;
        exists req; cbn; (split; [reflexivity|]); (split; [reflexivity|]).
      * left. split; [reflexivity|]. exists ret, i. auto.
      * right. exists KeyError. auto.
    + intros [= <-]. right. exists req. cbn. split; [reflexivity|].
      split; [reflexivity|]. right. exists e. auto.
Qed.

(** From [Ready] with the exit request behind [pre], the worker ends
    after finitely many transitions, only requests of [pre] are ever in
    process, and only their ids are written. *)
Lemma run_to_exit (pre post : list request) (x : request) :
  Forall (fun r => has_exit r = false) pre ->
  has_exit x = true ->
  forall w, ph w = Ready -> in_q w = pre ++ x :: post ->
  exists n,
    ((ph (run have n w) = Stopped /\ in_q (run have n w) = post)
     \/ exists e, ph (run have n w) = Crashed e)
    /\ (forall m, n <= m -> run have m w = run have n w)
    /\ (forall m req, ph (run have m w) = Processing req -> In req pre)
    /\ (forall m k, out_d (run have m w) !! k <> out_d w !! k ->
          exists req, In req pre /\ req_id req = Some k).
Proof.
  intros Hpre Hx. induction Hpre as [|r pre Hr Hpre IH]; intros w Hph Hq.
  - (* the exit request is next *)
    pose (w1 := {| ph := Stopped; ms := ms w; in_q := post; out_d := out_d w |}).
    assert (Hs : step have w = Some w1)
      by (unfold step; rewrite Hph, Hq; cbn; rewrite Hx; reflexivity).
    assert (Hs1 : step have w1 = None) by reflexivity.
    assert (Hrun : forall m, run have m w = w \/ run have m w = w1).
    { intros [|m]; [left; reflexivity|right].
      rewrite (run_S _ _ _ Hs). apply run_stuck, Hs1. }
    exists 1. rewrite (run_S _ _ _ Hs). cbn [run].
    split; [left; split; reflexivity|]. split; [|split].
    + intros [|m] Hm; [lia|]. rewrite (run_S _ _ _ Hs). apply run_stuck, Hs1.
    + intros m req Hp.
      destruct (Hrun m) as [E|E]; rewrite E in Hp; cbn in Hp; congruence.
    + intros m k Hk. destruct (Hrun m) as [E|E]; rewrite E in Hk;
        cbn in Hk; congruence.
  - (* a request of [pre] is next *)
    pose (w1 := {| ph := Processing r; ms := ms w; in_q := pre ++ x :: post;
                   out_d := out_d w |}).
    assert (Hs : step have w = Some w1)
      by (unfold step; rewrite Hph, Hq; cbn; rewrite Hr; reflexivity).
    assert (Hcrash : forall e ms',
              step have w1 = Some {| ph := Crashed e; ms := ms';
                                     in_q := pre ++ x :: post;
                                     out_d := out_d w |} ->
              exists n,
                ((ph (run have n w) = Stopped /\ in_q (run have n w) = post)
                 \/ exists e, ph (run have n w) = Crashed e)
                /\ (forall m, n <= m -> run have m w = run have n w)
                /\ (forall m req, ph (run have m w) = Processing req ->
                      In req (r :: pre))
                /\ (forall m k, out_d (run have m w) !! k <> out_d w !! k ->
                      exists req, In req (r :: pre) /\ req_id req = Some k)).
    { intros e ms'. set (w2 := {| ph := Crashed e |}). intros Hs1.
      assert (Hs2 : step have w2 = None) by reflexivity.
      assert (Hrun : forall m, run have (S (S m)) w = w2).
      { intros m. rewrite (run_S _ _ _ Hs), (run_S _ _ _ Hs1).
        apply run_stuck, Hs2. }
      exists 2. rewrite Hrun.
      split; [right; exists e; reflexivity|]. split; [|split].
      * intros [|[|m]] Hm; try lia. apply Hrun.
      * intros [|[|m]] req.
        -- cbn. rewrite Hph. discriminate.
        -- rewrite (run_S _ _ _ Hs). cbn. intros [= <-]. left. reflexivity.
        -- rewrite Hrun. cbn. discriminate.
      * intros [|[|m]] k.
        -- cbn. congruence.
        -- rewrite (run_S _ _ _ Hs). cbn. congruence.
        -- rewrite Hrun. cbn. congruence. }
    destruct (search have (ms w) r) as [[ret|e] ms'] eqn:Es.
    + destruct (req_id r) as [i|] eqn:Ei.
      * pose (w2 := {| ph := Ready; ms := ms'; in_q := pre ++ x :: post;
                       out_d := <[i := (ret, i)]> (out_d w) |}).
        assert (Hs1 : step have w1 = Some w2)
          by (unfold step; cbn; rewrite Es, Ei; reflexivity).
        destruct (IH w2 eq_refl eq_refl) as (n & Hend & Hfix & Hproc & Hout).
        assert (Hrun : forall m, run have (S (S m)) w = run have m w2)
          by (intros m; rewrite (run_S _ _ _ Hs), (run_S _ _ _ Hs1); reflexivity).
        exists (S (S n)). rewrite Hrun.
        split; [exact Hend|]. split; [|split].
        -- intros [|[|m]] Hm; try lia. rewrite Hrun. apply Hfix. lia.
        -- intros [|[|m]] req.
           ++ cbn. rewrite Hph. discriminate.
           ++ rewrite (run_S _ _ _ Hs). cbn. intros [= <-]. left. reflexivity.
           ++ rewrite Hrun. intros Hp. right. eapply Hproc; exact Hp.
        -- intros [|[|m]] k.
           ++ cbn. congruence.
           ++ rewrite (run_S _ _ _ Hs). cbn. congruence.
           ++ rewrite Hrun. intros Hk.
              destruct (decide (k = i)) as [->|Hne].
              ** exists r. split; [left; reflexivity|exact Ei].
              ** destruct (Hout m k) as (req & Hin & Hid).
                 { cbn [out_d w2]. rewrite lookup_insert_ne by congruence.
                   exact Hk. }
                 exists req. split; [right; exact Hin|exact Hid].
      * apply (Hcrash KeyError ms').
        unfold step. cbn. rewrite Es, Ei. reflexivity.
    + apply (Hcrash e ms'). unfold step. cbn. rewrite Es. reflexivity.
Qed.

(** C9: the worker takes the requests one at a time, every transition
    going from [Ready] to [Processing] of the request taken (to [Stopped]
    exactly when it is the exit request, with nothing written) or from
    [Processing] back to [Ready] with one write (or ending on an
    exception); [Stopped] has no transition; and when the exit
    request comes after the requests [pre], the worker ends after finitely
    many transitions, stopped in front of the requests behind the exit
    request unless an exception ended it before, and no request other than
    those of [pre] is ever in process or has its id written to [out_d]. *)
Theorem worker_stops_on_exit (pre post : list request) (x : request)
    (out : gmap Z (retval * Z)) :
  Forall (fun r => has_exit r = false) pre ->
  has_exit x = true ->
  let w0 := start (pre ++ x :: post) out in
  (forall w w', step have w = Some w' ->
     (ph w = Ready /\ out_d w' = out_d w /\
      exists req, in_q w = req :: in_q w' /\
        ph w' = (if has_exit req then Stopped else Processing req))
     \/ (exists req, ph w = Processing req /\ in_q w' = in_q w /\
           ((ph w' = Ready /\
             exists ret i, req_id req = Some i
                           /\ out_d w' = <[i := (ret, i)]> (out_d w))
            \/ (exists e, ph w' = Crashed e /\ out_d w' = out_d w))))
  /\ (forall w, ph w = Stopped -> forall n, run have n w = w)
  /\ exists n,
       ((ph (run have n w0) = Stopped /\ in_q (run have n w0) = post)
        \/ exists e, ph (run have n w0) = Crashed e)
       /\ (forall m, n <= m -> run have m w0 = run have n w0)
       /\ (forall m req, ph (run have m w0) = Processing req -> In req pre)
       /\ (forall m k, out_d (run have m w0) !! k <> out !! k ->
             exists req, In req pre /\ req_id req = Some k).
Proof.
  intros Hpre Hx w0. split; [|split].
  - exact step_alternates.
  - intros w Hp n. apply run_stuck. unfold step. rewrite Hp. reflexivity.
  - exact (run_to_exit pre post x Hpre Hx w0 eq_refl eq_refl).
Qed.

End worker_proofs.

Lemma worker_stops_on_exit_witness :
  let w0 := @start (fixed_backend [1%Q])
              [mk_request 7 [3%Z] "let it be" "get back"; exit_request;
               mk_request 8 [3%Z] "let it be" "get back"] ∅ in
  ph (run true 3 w0) = Stopped
  /\ in_q (run true 3 w0) = [mk_request 8 [3%Z] "let it be" "get back"]
  /\ out_d (run true 3 w0) !! 7%Z = Some (RetNone, 7%Z)
  /\ out_d (run true 3 w0) !! 8%Z = None
  /\ exists n, forall m, n <= m -> run true m w0 = run true n w0.
Proof.
  intros w0.
  split; [reflexivity|]. split; [reflexivity|]. split; [reflexivity|].
  split; [reflexivity|].
  destruct (@worker_stops_on_exit unicode_excerpt sample_db
              (fixed_backend [1%Q]) true
              [mk_request 7 [3%Z] "let it be" "get back"]
              [mk_request 8 [3%Z] "let it be" "get back"] exit_request ∅)
    as (_ & _ & n & _ & Hfix & _).
  - repeat constructor.
  - reflexivity.
  - exists n. exact Hfix.
Defined.

End search_process_proofs.

(** ** How load_artist and search end *)

Module outcome_proofs.

Import fuzzy_index search_index search_process spec examples.

Section outcome_proofs.
Context `{Unicode} `{Database} `{Backend}.
Variable have : bool.

Lemma read_more_nil (self : MappingLookupSearch) : read_more self [] = self.
Proof. destruct self. reflexivity. Qed.

Lemma read_more_app (self : MappingLookupSearch) (ids more : list Z) :
  read_more (read_more self ids) more = read_more self (ids ++ more).
Proof.
  unfold read_more. cbn [artist_data row_store_reads].
  rewrite rev_app_distr, app_assoc. reflexivity.
Qed.

(** X1: [load_artist] never adds an entry to the cache.  It returns an
    entry exactly when the artist is cached, [None] exactly when the
    artist is not cached and has no rows, and it raises [TypeError] exactly
    when the artist is not cached and has rows; the row store is read
    exactly when the artist is not cached. *)
Theorem load_artist_outcome (self : MappingLookupSearch) (artist_credit_id : Z) :
  let r := load_artist have self artist_credit_id in
  artist_data (snd r) = artist_data self
  /\ (forall e, fst r = Ok (Some e)
                <-> artist_data self !! artist_credit_id = Some e)
  /\ (fst r = Ok None
      <-> artist_data self !! artist_credit_id = None
          /\ select_where_artist_credit_id artist_credit_id = [])
  /\ (fst r = Raise TypeError
      <-> artist_data self !! artist_credit_id = None
          /\ select_where_artist_credit_id artist_credit_id <> [])
  /\ row_store_reads (snd r)
     = if bool_decide (is_Some (artist_data self !! artist_credit_id))
       then row_store_reads self
       else artist_credit_id :: row_store_reads self.
Proof.
  cbv zeta.
  destruct (artist_data self !! artist_credit_id) as [e0|] eqn:Hlook.
  - rewrite (search_index_proofs.load_artist_cached have _ _ e0 Hlook).
    cbn [fst snd].
    rewrite bool_decide_eq_true_2 by (eexists; reflexivity).
    split; [reflexivity|]. split; [|split; [|split; [|reflexivity]]].
    + intros e. split; congruence.
    + split; [discriminate|]. intros [? _]. discriminate.
    + split; [discriminate|]. intros [? _]. discriminate.
  - rewrite (search_index_proofs.load_artist_uncached have) by exact Hlook.
    cbn [fst snd artist_data row_store_reads].
    rewrite bool_decide_eq_false_2 by (intros [? ?]; discriminate).
    split; [reflexivity|]. split; [|split; [|split; [|reflexivity]]].
    + intros e. destruct (is_empty _); split; discriminate.
    + destruct (select_where_artist_credit_id artist_credit_id); cbn;
        split; try tauto; try discriminate.
      intros [_ ?]. discriminate.
    + destruct (select_where_artist_credit_id artist_credit_id); cbn;
        split; try discriminate; try tauto.
      intros _. split; [reflexivity|discriminate].
Qed.

(** The state after the loop: the rows of a prefix of the candidates were
    read, none of them cached, and the cache is as before. *)
Lemma search_loop_state (req : request)
    (release_name recording_name : option str) (ids : list Z) :
  forall self,
  exists new rest,
    ids = new ++ rest
    /\ snd (search_loop have self req release_name recording_name ids)
       = read_more self new
    /\ Forall (fun a => artist_data self !! a = None) new.
Proof.
  induction ids as [|a ids IH]; intros self.
  - exists [], []. split; [reflexivity|].
    split; [symmetry; apply read_more_nil|constructor].
  - destruct (unknown self a) eqn:Hu.
    + rewrite search_proofs.search_loop_skip by exact Hu.
      destruct (IH (read_more self [a])) as (new & rest & -> & Hs & Hnew).
      exists (a :: new), rest. split; [reflexivity|].
      split; [rewrite Hs; apply read_more_app|].
      constructor; [|exact Hnew].
      apply search_proofs.unknown_spec in Hu. tauto.
    + rewrite search_proofs.search_loop_stop by exact Hu. cbn [snd].
      destruct (artist_data self !! a) as [e|] eqn:Hlook.
      * exists [], (a :: ids). split; [reflexivity|].
        rewrite bool_decide_eq_true_2 by (eexists; reflexivity).
        split; [symmetry; apply read_more_nil|constructor].
      * exists [a], ids. split; [reflexivity|].
        rewrite bool_decide_eq_false_2 by (intros [? ?]; discriminate).
        split; [reflexivity|]. constructor; [exact Hlook|constructor].
Qed.

(** The outcome of the loop: [None] when no candidate is cached or has
    rows, and [TypeError] otherwise. *)
Lemma search_loop_outcome (req : request)
    (release_name recording_name : option str) (ids : list Z) :
  forall self,
  fst (search_loop have self req release_name recording_name ids)
  = if forallb (unknown self) ids then Ok RetNone else Raise TypeError.
Proof.
  induction ids as [|a ids IH]; intros self; [reflexivity|].
  cbn [forallb]. destruct (unknown self a) eqn:Hu.
  - rewrite search_proofs.search_loop_skip by exact Hu. rewrite IH.
    reflexivity.
  - rewrite search_proofs.search_loop_stop by exact Hu. reflexivity.
Qed.

(** X3: [search] leaves the cache as it was and reads the row store only
    for candidate artists that are not cached: the artists read are the
    first candidates of the request, in order, and each was missing from
    the cache.  A request without the key [artist_ids] reads nothing. *)
Theorem search_reads_uncached_only (self : MappingLookupSearch) (req : request) :
  exists new rest,
    default [] (req_artist_ids req) = new ++ rest
    /\ snd (search have self req) = read_more self new
    /\ artist_data (snd (search have self req)) = artist_data self
    /\ row_store_reads (snd (search have self req))
       = rev new ++ row_store_reads self
    /\ Forall (fun a => artist_data self !! a = None) new.
Proof.
  assert (Hgoal : exists new rest,
            default [] (req_artist_ids req) = new ++ rest
            /\ snd (search have self req) = read_more self new
            /\ Forall (fun a => artist_data self !! a = None) new).
  { destruct (has_search_keys req) eqn:Hk.
    - destruct (search_proofs.read_request_keys req Hk)
        as (ids & ln & rn & Hi & Hr).
      unfold search. rewrite Hr, Hi. cbn [default].
      apply search_loop_state.
    - unfold search. rewrite (search_proofs.read_request_no_key req Hk).
      exists [], (default [] (req_artist_ids req)).
      split; [reflexivity|].
      split; [symmetry; apply read_more_nil|constructor]. }
  destruct Hgoal as (new & rest & Hids & Hs & Hnew).
  exists new, rest. rewrite Hs. repeat split; assumption.
Qed.

(** X4: the outcome of [search] in closed form.  A request that lacks one
    of the keys [artist_ids], [artist_name], [release_name] and
    [recording_name] raises [KeyError]; otherwise [search] returns [None]
    when none of the candidate artists is cached or has rows, and raises
    [TypeError] as soon as one is or has.  It returns a list for no
    request. *)
Theorem search_outcome (self : MappingLookupSearch) (req : request) :
  fst (search have self req)
  = if has_search_keys req then
      if forallb (unknown self) (default [] (req_artist_ids req))
      then Ok RetNone else Raise TypeError
    else Raise KeyError.
Proof.
  destruct (has_search_keys req) eqn:Hk.
  - destruct (search_proofs.read_request_keys req Hk)
      as (ids & ln & rn & Hi & Hr).
    unfold search. rewrite Hr, Hi. cbn [default].
    apply search_loop_outcome.
  - unfold search. rewrite (search_proofs.read_request_no_key req Hk).
    reflexivity.
Qed.

End outcome_proofs.

End outcome_proofs.

(** ** What the worker answers *)

Module worker_proofs.

Import fuzzy_index search_index search_process spec examples.

Section worker_more.
Context `{Unicode} `{Database} `{Backend}.
Variable have : bool.

(** With an empty cache, a request none of whose candidates has rows is
    answered with [None], and the cache stays empty. *)
Lemma search_answered_None (self : MappingLookupSearch) (r : request) :
  artist_data self = ∅ ->
  answered_None r ->
  exists i self', req_id r = Some i
                  /\ search have self r = (Ok RetNone, self')
                  /\ artist_data self' = ∅.
Proof.
  intros Hc (_ & [i Hi] & Hk & Hrows).
  destruct (search_proofs.read_request_keys r Hk) as (ids & ln & rn & Hids & Hr).
  exists i, (read_more self ids). split; [exact Hi|]. split; [|exact Hc].
  unfold search. rewrite Hr. rewrite <- (app_nil_r ids) at 1.
  rewrite search_proofs.search_loop_unknown; [reflexivity|].
  eapply List.Forall_impl; [|exact (Hrows ids Hids)].
  intros a Ha. apply search_proofs.unknown_spec.
  split; [rewrite Hc; apply lookup_empty|exact Ha].
Qed.

(** The requests [reqs], each answered with [None], take two transitions
    each. *)
Lemma run_answers (reqs rest : list request) :
  Forall answered_None reqs ->
  forall w, ph w = Ready -> in_q w = reqs ++ rest -> artist_data (ms w) = ∅ ->
  let w' := run have (2 * length reqs) w in
  ph w' = Ready /\ in_q w' = rest /\ artist_data (ms w') = ∅
  /\ (forall r i, In r reqs -> req_id r = Some i ->
        out_d w' !! i = Some (RetNone, i))
  /\ (forall k, (forall r, In r reqs -> req_id r <> Some k) ->
        out_d w' !! k = out_d w !! k).
Proof.
  induction 1 as [|r reqs Hr Hreqs IH]; intros w Hph Hq Hc.
  { cbn in *. split; [exact Hph|]. split; [exact Hq|]. split; [exact Hc|].
    split; [intros r i []|reflexivity]. }
  pose (w1 := {| ph := Processing r; ms := ms w; in_q := reqs ++ rest;
                 out_d := out_d w |}).
  assert (Hs : step have w = Some w1).
  { unfold step. rewrite Hph, Hq. cbn.
    destruct Hr as (-> & _). reflexivity. }
  destruct (search_answered_None (ms w) r Hc Hr) as (i & ms' & Hi & Es & Hc').
  pose (w2 := {| ph := Ready; ms := ms'; in_q := reqs ++ rest;
                 out_d := <[i := (RetNone, i)]> (out_d w) |}).
  assert (Hs1 : step have w1 = Some w2)
    by (unfold step; cbn; rewrite Es, Hi; reflexivity).
  replace (2 * length (r :: reqs)) with (S (S (2 * length reqs)))
    by (cbn [length]; lia).
  cbv zeta.
  rewrite (search_process_proofs.run_S have _ _ _ Hs),
          (search_process_proofs.run_S have _ _ _ Hs1).
  destruct (IH w2 eq_refl eq_refl Hc') as (Hp & Hq' & Hcache & Hin & Hout).
  split; [exact Hp|]. split; [exact Hq'|]. split; [exact Hcache|]. split.
  - intros r' i' [<-|Hr'] Hi'.
    + assert (i' = i) as -> by congruence.
      destruct (decide (Exists (fun r0 => req_id r0 = Some i) reqs))
        as [Hex|Hnex].
      * apply List.Exists_exists in Hex as (r0 & Hr0 & Hid).
        exact (Hin r0 i Hr0 Hid).
      * rewrite Hout.
        -- cbn. apply lookup_insert_eq.
        -- intros r0 Hr0 Hid. apply Hnex.
           apply List.Exists_exists. exists r0. auto.
    + exact (Hin r' i' Hr' Hi').
  - intros k Hk. rewrite Hout.
    + cbn. apply lookup_insert_ne. intros ->.
      apply (Hk r (or_introl eq_refl)). exact Hi.
    + intros r0 Hr0. apply Hk. right. exact Hr0.
Qed.

(** X15: a worker started on the requests [pre], an exit request and the
    requests [post], where no candidate artist of a request of [pre] has
    rows, answers every request of [pre] with [None]: after two
    transitions for each of them and one for the exit request it has
    stopped with an empty cache, the requests of [post] are still in the
    queue, [out_d] holds [None] under the id of every request of [pre],
    and no other key of [out_d] has changed. *)
Theorem worker_answers_None_until_exit (pre post : list request) (x : request)
    (out : gmap Z (retval * Z)) :
  Forall answered_None pre ->
  has_exit x = true ->
  let w := run have (2 * length pre + 1) (start (pre ++ x :: post) out) in
  ph w = Stopped /\ in_q w = post /\ artist_data (ms w) = ∅
  /\ (forall r i, In r pre -> req_id r = Some i ->
        out_d w !! i = Some (RetNone, i))
  /\ (forall k, (forall r, In r pre -> req_id r <> Some k) ->
        out_d w !! k = out !! k).
Proof.
  intros Hpre Hx. cbv zeta. rewrite search_process_proofs.run_add.
  destruct (run_answers pre (x :: post) Hpre (start (pre ++ x :: post) out)
              eq_refl eq_refl eq_refl)
    as (Hp & Hq & Hc & Hin & Hout).
  set (w := run have (2 * length pre) (start (pre ++ x :: post) out)) in *.
  assert (Hs : step have w = Some {| ph := Stopped; ms := ms w; in_q := post;
                                     out_d := out_d w |})
    by (unfold step; rewrite Hp, Hq; cbn; rewrite Hx; reflexivity).
  rewrite (search_process_proofs.run_S have 0 _ _ Hs).
  cbn [run ph in_q out_d ms].
  repeat split; auto.
Qed.

(** X16: the first request with a candidate artist that has rows ends the
    worker.  After the requests [pre], answered with [None], the request
    [r] raises [TypeError] in [ms.search]: the worker has ended, nothing
    was written for [r], and the requests behind it, an exit request
    among them or not, stay in the queue for good. *)
Theorem worker_crashes_on_artist_with_rows (pre rest : list request)
    (r : request) (ids : list Z) (artist_id : Z) (out : gmap Z (retval * Z)) :
  Forall answered_None pre ->
  has_exit r = false ->
  has_search_keys r = true ->
  req_artist_ids r = Some ids ->
  In artist_id ids ->
  select_where_artist_credit_id artist_id <> [] ->
  let w := run have (2 * length pre + 2) (start (pre ++ r :: rest) out) in
  ph w = Crashed TypeError /\ in_q w = rest
  /\ (forall n, run have n w = w)
  /\ (forall k, (forall r', In r' pre -> req_id r' <> Some k) ->
        out_d w !! k = out !! k).
Proof.
  intros Hpre Hx Hk Hids Hin Hrows. cbv zeta.
  rewrite search_process_proofs.run_add.
  destruct (run_answers pre (r :: rest) Hpre (start (pre ++ r :: rest) out)
              eq_refl eq_refl eq_refl)
    as (Hp & Hq & Hc & _ & Hout).
  set (w := run have (2 * length pre) (start (pre ++ r :: rest) out)) in *.
  clearbody w.
  pose (w1 := {| ph := Processing r; ms := ms w; in_q := rest;
                 out_d := out_d w |}).
  assert (Hs : step have w = Some w1)
    by (unfold step; rewrite Hp, Hq; cbn; rewrite Hx; reflexivity).
  assert (Es : fst (search have (ms w) r) = Raise TypeError).
  { destruct (search_proofs.read_request_keys r Hk)
      as (ids' & ln & rn & Hi & Hr).
    unfold search. rewrite Hr. rewrite Hids in Hi. injection Hi as <-.
    rewrite outcome_proofs.search_loop_outcome.
    replace (forallb (unknown (ms w)) ids) with false; [reflexivity|].
    symmetry. apply not_true_is_false. intros Hall.
    rewrite forallb_forall in Hall.
    apply Hall in Hin. apply search_proofs.unknown_spec in Hin as [_ Hno].
    contradiction. }
  destruct (search have (ms w) r) as [o ms'] eqn:Esearch. cbn [fst] in Es.
  subst o.
  pose (w2 := {| ph := Crashed TypeError; ms := ms'; in_q := rest;
                 out_d := out_d w |}).
  assert (Hs1 : step have w1 = Some w2)
    by (unfold step; cbn; rewrite Esearch; reflexivity).
  rewrite (search_process_proofs.run_S have 1 _ _ Hs),
          (search_process_proofs.run_S have 0 _ _ Hs1).
  cbn [run ph in_q out_d w2].
  split; [reflexivity|]. split; [reflexivity|]. split; [|exact Hout].
  intros n. apply search_process_proofs.run_stuck. reflexivity.
Qed.

End worker_more.

End worker_proofs.

(** ** The groups that load_artist builds *)

Module group_proofs.

Import fuzzy_index search_index search_process spec examples.

Lemma dd_append_keys {K V} `{EqDecision K} (k k0 : K) (v : V)
    (d : list (K * list V)) :
  In k0 (List.map fst (dd_append k v d)) <-> k0 = k \/ In k0 (List.map fst d).
Proof.
  induction d as [|[k' vs] d IH]; simpl.
  - intuition congruence.
  - destruct (decide (k = k')) as [<-|Hne]; simpl.
    + intuition congruence.
    + rewrite IH. intuition congruence.
Qed.

Lemma dd_append_NoDup {K V} `{EqDecision K} (k : K) (v : V)
    (d : list (K * list V)) :
  List.NoDup (List.map fst d) -> List.NoDup (List.map fst (dd_append k v d)).
Proof.
  induction d as [|[k' vs] d IH]; simpl; intros Hd.
  - constructor; [intros []|constructor].
  - inversion Hd as [|? ? Hk' Hd']; subst.
    destruct (decide (k = k')) as [<-|Hne]; simpl.
    + constructor; assumption.
    + constructor; [|apply IH; exact Hd'].
      rewrite dd_append_keys. intros [->|Hin]; [congruence|contradiction].
Qed.

Lemma dd_append_perm {K V} `{EqDecision K} (k : K) (v : V)
    (d : list (K * list V)) :
  Permutation (flat_map snd (dd_append k v d)) (v :: flat_map snd d).
Proof.
  induction d as [|[k' vs] d IH]; simpl; [reflexivity|].
  destruct (decide (k = k')) as [<-|Hne]; simpl.
  - rewrite <- app_assoc. simpl. symmetry. apply Permutation_middle.
  - rewrite IH. symmetry. apply Permutation_middle.
Qed.

Lemma dd_append_nonempty {K V} `{EqDecision K} (k : K) (v : V)
    (d : list (K * list V)) :
  Forall (fun kv => snd kv <> []) d ->
  Forall (fun kv => snd kv <> []) (dd_append k v d).
Proof.
  induction 1 as [|[k' vs] d Hkv Hd IH]; simpl.
  - constructor; [discriminate|constructor].
  - destruct (decide (k = k')) as [<-|Hne].
    + constructor; [|exact Hd]. simpl. destruct vs; discriminate.
    + constructor; [exact Hkv|exact IH].
Qed.

Lemma map_imap_proj {A B C} (f : nat -> A -> B) (p : B -> C) (q : A -> C)
    (l : list A) :
  (forall i x, p (f i x) = q x) -> List.map p (imap f l) = List.map q l.
Proof.
  revert f. induction l as [|x l IH]; intros f Hf; simpl; [reflexivity|].
  rewrite Hf. f_equal. apply IH. intros i y. apply Hf.
Qed.

Section group_proofs.
Context `{Unicode} `{Database}.

(** What the first loop has put into [recording_ref], for any start. *)
Lemma fold_read_row_ref (rows : list Mapping) (acc : rows_acc) :
  let ref := acc_recording_ref (fold_left read_row rows acc) in
  (List.NoDup (List.map fst (acc_recording_ref acc)) -> List.NoDup (List.map fst ref))
  /\ Permutation (flat_map snd ref)
       (flat_map snd (acc_recording_ref acc) ++ List.map recording_row_of rows)
  /\ (Forall (fun kv => snd kv <> []) (acc_recording_ref acc) ->
      Forall (fun kv => snd kv <> []) ref).
Proof.
  revert acc. induction rows as [|row rows IH]; intros acc; cbn [fold_left].
  - cbv zeta. rewrite app_nil_r. auto.
  - destruct (IH (read_row acc row)) as (Hn & Hp & Hne). cbv zeta.
    split; [|split].
    + intros Hd. apply Hn. unfold read_row. cbn [acc_recording_ref].
      apply dd_append_NoDup. exact Hd.
    + rewrite Hp. unfold read_row at 1. cbn [acc_recording_ref].
      rewrite dd_append_perm. cbn [List.map].
      apply Permutation_middle.
    + intros Hd. apply Hne. unfold read_row. cbn [acc_recording_ref].
      apply dd_append_nonempty. exact Hd.
Qed.

Lemma fold_read_row_origin (rows : list Mapping) (acc : rows_acc)
    (known : Mapping -> Prop) :
  (forall k vs d, In (k, vs) (acc_recording_ref acc) -> In d vs ->
     exists row, known row /\ d = recording_row_of row
                 /\ encode_string (recording_name row) = k) ->
  forall k vs d,
    In (k, vs) (acc_recording_ref (fold_left read_row rows acc)) -> In d vs ->
    exists row, (known row \/ In row rows) /\ d = recording_row_of row
                /\ encode_string (recording_name row) = k.
Proof.
  revert acc known. induction rows as [|row rows IH]; intros acc known Hacc;
    cbn [fold_left].
  - intros k vs d Hin Hd. destruct (Hacc k vs d Hin Hd) as (r & ? & ? & ?).
    exists r. auto.
  - intros k vs d Hin Hd.
    destruct (IH (read_row acc row) (fun r => known r \/ r = row)) with k vs d
      as (r & Hr & ? & ?); [|exact Hin|exact Hd|].
    + clear k vs d Hin Hd. intros k vs d Hin Hd.
      unfold read_row in Hin. cbn [acc_recording_ref] in Hin.
      destruct (search_index_proofs.dd_append_inv _ _ _ _ _ _ Hin Hd)
        as [[Ek Ed]|(vs0 & Hin0 & Hd0)].
      * subst k d. exists row. auto.
      * destruct (Hacc k vs0 d Hin0 Hd0) as (r & ? & ? & ?). exists r. auto.
    + exists r. split; [|auto]. destruct Hr as [[? | ->] | ?]; simpl; auto.
Qed.

(** X10: the recording groups that [load_artist] builds from the rows of an
    artist have pairwise different texts, none is empty, their entries
    together are the rows, each once, and every entry stands in the group
    of the encoded recording name of its row. *)
Theorem recording_groups_partition (rows : list Mapping) :
  let recording_data := group_recordings (acc_recording_ref (read_rows rows)) in
  List.NoDup (List.map rg_text recording_data)
  /\ Forall (fun g => rg_recording_data g <> []) recording_data
  /\ Permutation (flat_map rg_recording_data recording_data)
       (List.map recording_row_of rows)
  /\ Forall (fun g =>
       Forall (fun d => exists row, In row rows /\ d = recording_row_of row
                          /\ encode_string (recording_name row) = rg_text g)
         (rg_recording_data g)) recording_data.
Proof.
  cbv zeta. unfold read_rows.
  set (acc0 := {| acc_recording_ref := []; acc_recording_releases := ∅;
                  acc_release_data := [] |}).
  destruct (fold_read_row_ref rows acc0) as (Hn & Hp & Hne).
  set (ref := acc_recording_ref (fold_left read_row rows acc0)) in *.
  assert (Et : List.map rg_text (group_recordings ref) = List.map fst ref)
    by (apply map_imap_proj; reflexivity).
  assert (Ed : List.map rg_recording_data (group_recordings ref)
               = List.map snd ref)
    by (apply map_imap_proj; reflexivity).
  assert (Hg : forall g, In g (group_recordings ref) ->
                 In (rg_text g, rg_recording_data g) ref).
  { intros g Hg. apply list_elem_of_In, list_elem_of_lookup in Hg as [i Hi].
    unfold group_recordings in Hi. rewrite list_lookup_imap in Hi.
    destruct (ref !! i) as [[k vs]|] eqn:Ei; [|discriminate].
    injection Hi as <-. cbn.
    apply list_elem_of_In, list_elem_of_lookup. exists i. exact Ei. }
  split; [|split; [|split]].
  - rewrite Et. apply Hn. constructor.
  - apply List.Forall_forall. intros g Hin.
    exact (proj1 (List.Forall_forall _ _) (Hne (List.Forall_nil _)) _ (Hg g Hin)).
  - rewrite !flat_map_concat_map, Ed, <- flat_map_concat_map. exact Hp.
  - apply List.Forall_forall. intros g Hin.
    apply List.Forall_forall. intros d Hd.
    destruct (fold_read_row_origin rows acc0 (fun _ => False))
      with (rg_text g) (rg_recording_data g) d as (row & Hr & ? & ?).
    + intros k vs d0 [].
    + apply Hg. exact Hin.
    + exact Hd.
    + exists row. destruct Hr as [[]|Hr]. auto.
Qed.

(** The first loop collects the release rows in the order of the rows. *)
Lemma fold_read_row_releases (rows : list Mapping) (acc : rows_acc) :
  acc_release_data (fold_left read_row rows acc)
  = acc_release_data acc ++ List.map release_row_of (with_release rows).
Proof.
  revert acc. induction rows as [|row rows IH]; intros acc; cbn [fold_left].
  - unfold with_release. simpl. rewrite app_nil_r. reflexivity.
  - rewrite IH. unfold read_row at 1. cbn [acc_release_data].
    unfold with_release. cbn [List.filter].
    destruct (truthy (encode_string (release_name row))).
    + rewrite <- app_assoc. reflexivity.
    + reflexivity.
Qed.

Lemma ref_releases_spec (release_data : list release_row) :
  let ref := ref_releases release_data in
  List.NoDup (List.map fst ref)
  /\ Permutation (flat_map snd ref)
       (List.map (fun r => (lr_id r, lr_score r)) release_data)
  /\ Forall (fun kv => snd kv <> []
                       /\ exists r, In r release_data /\ lr_text r = fst kv) ref.
Proof.
  cbv zeta. unfold ref_releases.
  assert (Hgen : forall (ref0 : list (option str * list (Z * Z))) known,
    List.NoDup (List.map fst ref0) ->
    Forall (fun kv => snd kv <> [] /\ exists r, known r /\ lr_text r = fst kv) ref0 ->
    let ref := fold_left (fun release_ref release =>
                 dd_append (lr_text release) (lr_id release, lr_score release)
                   release_ref) release_data ref0 in
    List.NoDup (List.map fst ref)
    /\ Permutation (flat_map snd ref)
         (flat_map snd ref0
          ++ List.map (fun r => (lr_id r, lr_score r)) release_data)
    /\ Forall (fun kv => snd kv <> []
                 /\ exists r, (known r \/ In r release_data)
                              /\ lr_text r = fst kv) ref).
  { induction release_data as [|rel rels IH]; intros ref0 known Hn Hf;
      cbn [fold_left]; cbv zeta.
    - rewrite app_nil_r. split; [exact Hn|]. split; [reflexivity|].
      eapply List.Forall_impl; [|exact Hf].
      intros kv [? (r & ? & ?)]. split; [assumption|]. exists r. auto.
    - destruct (IH (dd_append (lr_text rel) (lr_id rel, lr_score rel) ref0)
                  (fun r => known r \/ r = rel)) as (Hn' & Hp' & Hf').
      + apply dd_append_NoDup. exact Hn.
      + apply List.Forall_forall. intros [k vs] Hin. cbn [fst snd].
        split.
        * assert (Hne : Forall (fun kv : option str * list (Z * Z) => snd kv <> [])
                          (dd_append (lr_text rel) (lr_id rel, lr_score rel) ref0)).
          { apply dd_append_nonempty. eapply List.Forall_impl; [|exact Hf].
            intros kv [? _]. assumption. }
          exact (proj1 (List.Forall_forall _ _) Hne _ Hin).
        * assert (Hk : In k (List.map fst
                    (dd_append (lr_text rel) (lr_id rel, lr_score rel) ref0)))
            by (apply in_map_iff; exists (k, vs); auto).
          apply dd_append_keys in Hk as [->|Hk].
          -- exists rel. auto.
          -- apply in_map_iff in Hk as ([k' vs'] & <- & Hin').
             destruct (proj1 (List.Forall_forall _ _) Hf _ Hin')
               as [_ (r & ? & ?)].
             exists r. auto.
      + split; [exact Hn'|]. split.
        * rewrite Hp', dd_append_perm. cbn [List.map].
          apply Permutation_middle.
        * eapply List.Forall_impl; [|exact Hf'].
          intros kv [? (r & Hr & ?)]. split; [assumption|]. exists r.
          split; [|assumption]. destruct Hr as [[? | ->] | ?]; simpl; auto. }
  destruct (Hgen [] (fun _ => False)) as (Hn & Hp & Hf);
    [constructor|constructor|].
  split; [exact Hn|]. split; [exact Hp|].
  eapply List.Forall_impl; [|exact Hf].
  intros kv [? (r & [[]|Hr] & ?)]. split; [assumption|]. exists r. auto.
Qed.

(** X11: the release groups that [load_artist] builds have pairwise
    different texts, all of them true values (not empty, not [None]),
    none is empty, and their pairs of release id and score together are
    those of the rows whose release name encodes to a true value, each
    once. *)
Theorem release_groups_partition (rows : list Mapping) :
  let release_data :=
    group_releases (ref_releases (acc_release_data (read_rows rows))) in
  List.NoDup (List.map lg_text release_data)
  /\ Forall (fun g => truthy (lg_text g) = true
                      /\ lg_release_id_scores g <> []) release_data
  /\ Permutation (flat_map lg_release_id_scores release_data)
       (List.map (fun row => (release_id row, score row)) (with_release rows)).
Proof.
  cbv zeta. unfold read_rows. rewrite fold_read_row_releases.
  cbn [acc_release_data app].
  set (rd := List.map release_row_of (with_release rows)).
  destruct (ref_releases_spec rd) as (Hn & Hp & Hf).
  set (ref := ref_releases rd) in *.
  assert (Et : List.map lg_text (group_releases ref) = List.map fst ref)
    by (apply map_imap_proj; reflexivity).
  assert (Ed : List.map lg_release_id_scores (group_releases ref)
               = List.map snd ref)
    by (apply map_imap_proj; reflexivity).
  split; [|split].
  - rewrite Et. exact Hn.
  - apply List.Forall_forall. intros g Hg.
    apply list_elem_of_In, list_elem_of_lookup in Hg as [i Hi].
    unfold group_releases in Hi. rewrite list_lookup_imap in Hi.
    destruct (ref !! i) as [[k vs]|] eqn:Ei; [|discriminate].
    injection Hi as <-. cbn [lg_text lg_release_id_scores fst snd].
    assert (Hin : In (k, vs) ref)
      by (apply list_elem_of_In, list_elem_of_lookup; exists i; exact Ei).
    destruct (proj1 (List.Forall_forall _ _) Hf _ Hin) as [Hne (r & Hr & Hk)].
    split; [|exact Hne]. cbn [fst] in Hk. rewrite <- Hk.
    unfold rd in Hr. apply in_map_iff in Hr as (row & <- & Hrow).
    unfold with_release in Hrow. apply filter_In in Hrow as [_ Ht]. exact Ht.
  - rewrite !flat_map_concat_map, Ed, <- flat_map_concat_map, Hp.
    unfold rd. rewrite List.map_map. reflexivity.
Qed.

(** X12: [recording_releases] maps every recording id of the rows to the
    release ids of its rows, in the order of the rows, and has no other
    key. *)
Theorem recording_releases_spec (rows : list Mapping) (k : Z) :
  acc_recording_releases (read_rows rows) !! k
  = match List.filter (fun row => (recording_id row =? k)%Z) rows with
    | [] => None
    | row :: rows' => Some (List.map release_id (row :: rows'))
    end.
Proof.
  unfold read_rows.
  assert (Hgen : forall acc,
    acc_recording_releases (fold_left read_row rows acc) !! k
    = match List.filter (fun row => (recording_id row =? k)%Z) rows with
      | [] => acc_recording_releases acc !! k
      | row :: rows' =>
          Some (default [] (acc_recording_releases acc !! k)
                ++ List.map release_id (row :: rows'))
      end).
  { induction rows as [|row rows IH]; intros acc; cbn [fold_left List.filter];
      [reflexivity|].
    rewrite IH. unfold read_row. cbn [acc_recording_releases].
    unfold gm_append.
    destruct (Z.eqb_spec (recording_id row) k) as [->|Hne].
    - rewrite lookup_insert_eq.
      destruct (List.filter _ rows) as [|row' rows']; simpl.
      + reflexivity.
      + rewrite <- app_assoc. reflexivity.
    - rewrite lookup_insert_ne by exact Hne. reflexivity. }
  rewrite Hgen. cbn [acc_recording_releases]. rewrite lookup_empty.
  destruct (List.filter _ rows); reflexivity.
Qed.

End group_proofs.

End group_proofs.

(** ** [chunks] *)

Module chunking_proofs.

Import chunking.

Lemma nth_error_lookup {A} (l : list A) (i : nat) : nth_error l i = l !! i.
Proof. revert i. induction l as [|x l IH]; intros [|i]; simpl; auto. Qed.

Lemma slice_inside {A} (l : list A) (a b : Z) :
  (0 <= a <= b)%Z -> (b <= Z.of_nat (length l))%Z ->
  slice l a b = firstn (Z.to_nat b - Z.to_nat a) (skipn (Z.to_nat a) l).
Proof.
  intros Hab Hb. unfold slice. cbv zeta.
  replace (a <? 0)%Z with false by (symmetry; apply Z.ltb_ge; lia).
  replace (b <? 0)%Z with false by (symmetry; apply Z.ltb_ge; lia).
  rewrite !Z.min_l by lia. f_equal. lia.
Qed.

Lemma firstn_add_skipn {A} (x y : nat) (m : list A) :
  firstn x m ++ firstn y (skipn x m) = firstn (x + y) m.
Proof.
  revert m. induction x as [|x IH]; intros m; simpl; [reflexivity|].
  destruct m as [|a m]; simpl.
  - rewrite firstn_nil. reflexivity.
  - rewrite IH. reflexivity.
Qed.

(** Consecutive windows between ascending bounds join to one window. *)
Lemma concat_windows {A} (l : list A) (b : nat -> nat) (k : nat) :
  (forall i, i < k -> b i <= b (S i)) ->
  b 0 <= b k
  /\ concat (List.map (fun i => firstn (b (S i) - b i) (skipn (b i) l)) (seq 0 k))
     = firstn (b k - b 0) (skipn (b 0) l).
Proof.
  induction k as [|k IH]; intros Hb.
  - split; [lia|]. rewrite Nat.sub_diag. reflexivity.
  - destruct IH as [Hk IH]; [intros i Hi; apply Hb; lia|].
    pose proof (Hb k (Nat.lt_succ_diag_r k)) as Hk1.
    split; [lia|].
    rewrite seq_S, List.map_app, concat_app, IH. cbn [List.map concat plus].
    rewrite app_nil_r.
    replace (skipn (b k) l) with (skipn (b k - b 0) (skipn (b 0) l))
      by (rewrite skipn_skipn; f_equal; lia).
    rewrite firstn_add_skipn. f_equal. lia.
Qed.

(** X13: for a positive [n], [chunks(l, n)] yields exactly [n] consecutive
    pieces of [l] that together are [l]; the first [len(l) mod n] pieces
    have one element more than [len(l) // n], the others have
    [len(l) // n], so the sizes differ by at most one. *)
Theorem chunks_partition {A} (l : list A) (n : Z) :
  (0 < n)%Z ->
  exists cs,
    chunks l n = Yielded cs
    /\ length cs = Z.to_nat n
    /\ concat cs = l
    /\ forall (i : nat) c, cs !! i = Some c ->
         Z.of_nat (length c)
         = (Z.of_nat (length l) / n
            + (if (Z.of_nat i <? Z.of_nat (length l) mod n)%Z then 1 else 0))%Z.
Proof.
  intros Hn. unfold chunks.
  replace (n =? 0)%Z with false by (symmetry; apply Z.eqb_neq; lia).
  eexists. split; [reflexivity|].
  set (len := Z.of_nat (length l)).
  set (d := (len / n)%Z). set (r := (len mod n)%Z).
  assert (Hlen : len = (n * d + r)%Z) by (apply Z.div_mod; lia).
  assert (Hr : (0 <= r < n)%Z) by (apply Z.mod_pos_bound; lia).
  assert (Hd : (0 <= d)%Z) by (apply Z.div_pos; lia).
  pose (b := fun i : nat => Z.to_nat (d * Z.of_nat i + Z.min (Z.of_nat i) r)).
  assert (Hpiece : forall i : nat, i < Z.to_nat n ->
    slice l
      ((d + 1) * (if (Z.of_nat i <? r)%Z then Z.of_nat i else r)
       + d * (if (Z.of_nat i <? r)%Z then 0 else Z.of_nat i - r))
      ((d + 1) * (if (Z.of_nat i <? r)%Z then Z.of_nat i else r)
       + d * (if (Z.of_nat i <? r)%Z then 0 else Z.of_nat i - r)
       + (if (Z.of_nat i <? r)%Z then d + 1 else d))
    = firstn (b (S i) - b i) (skipn (b i) l)
    /\ Z.of_nat (b (S i) - b i)
       = (d + (if (Z.of_nat i <? r)%Z then 1 else 0))%Z
    /\ b (S i) <= length l /\ b i <= b (S i)).
  { intros i Hi. unfold b.
    destruct (Z.ltb_spec (Z.of_nat i) r) as [Hir|Hir].
    - rewrite slice_inside by (fold len; nia).
      rewrite (Z.min_l (Z.of_nat i)), (Z.min_l (Z.of_nat (S i))) by lia.
      split; [f_equal; [|f_equal]; nia|]. split; [nia|]. split; nia.
    - rewrite slice_inside by (fold len; nia).
      rewrite (Z.min_r (Z.of_nat i)), (Z.min_r (Z.of_nat (S i))) by lia.
      split; [f_equal; [|f_equal]; nia|]. split; [nia|]. split; nia. }
  assert (Hmap : List.map
      (fun i : Z =>
         slice l
           ((d + 1) * (if (i <? r)%Z then i else r)
            + d * (if (i <? r)%Z then 0 else i - r))
           ((d + 1) * (if (i <? r)%Z then i else r)
            + d * (if (i <? r)%Z then 0 else i - r)
            + (if (i <? r)%Z then d + 1 else d)))
      (range n)
    = List.map (fun i => firstn (b (S i) - b i) (skipn (b i) l))
        (seq 0 (Z.to_nat n))).
  { unfold range. rewrite List.map_map. apply List.map_ext_in.
    intros i Hi. apply in_seq in Hi. apply Hpiece. lia. }
  cbv zeta. fold len. fold d. fold r. rewrite Hmap.
  split; [rewrite List.length_map, length_seq; reflexivity|]. split.
  - destruct (concat_windows l b (Z.to_nat n)) as [_ ->].
    + intros i Hi. apply Hpiece. exact Hi.
    + assert (b 0 = 0) as -> by (unfold b; lia).
      assert (b (Z.to_nat n) = length l) as ->.
      { unfold b. rewrite Z2Nat.id by lia. rewrite Z.min_r by lia.
        replace (d * n + r)%Z with len by lia. unfold len. apply Nat2Z.id. }
      rewrite Nat.sub_0_r. cbn [skipn]. apply firstn_all.
  - intros i c Hi.
    assert (Hlt : i < Z.to_nat n).
    { apply lookup_lt_Some in Hi.
      rewrite List.length_map, length_seq in Hi. exact Hi. }
    destruct (Hpiece i Hlt) as (_ & Hsz & Hle & Hmono).
    assert (Ec : c = firstn (b (S i) - b i) (skipn (b i) l)).
    { rewrite <- nth_error_lookup in Hi.
      rewrite nth_error_map, nth_error_seq in Hi.
      destruct (Nat.ltb_spec i (Z.to_nat n)); [|lia].
      cbn in Hi. congruence. }
    rewrite Ec, length_firstn, length_skipn, <- Hsz. lia.
Qed.

(** X14: [chunks(l, 0)] raises [ZeroDivisionError], and for a negative [n]
    [chunks(l, n)] yields nothing at all. *)
Theorem chunks_not_positive {A} (l : list A) (n : Z) :
  (n <= 0)%Z ->
  chunks l n = if (n =? 0)%Z then ZeroDivisionError else Yielded [].
Proof.
  intros Hn. unfold chunks. destruct (n =? 0)%Z; [reflexivity|].
  unfold range. rewrite Z2Nat.nonpos by exact Hn. reflexivity.
Qed.

End chunking_proofs.

(** ** More on fuzzy_index.py *)

Module fuzzy_more_proofs.

Import fuzzy_index spec examples.

Lemma min_of_suffix_lengths (a k n : nat) :
  fold_right Nat.min a (List.map (fun i => a - i) (seq k n))
  = match n with 0 => a | S n' => a - (k + n') end.
Proof.
  revert k. induction n as [|n IH]; intros k; [reflexivity|].
  cbn [seq List.map fold_right]. rewrite IH. destruct n; lia.
Qed.

Lemma column_of_suffixes {A} (p : list A) (j k n : nat) :
  flat_map (fun l => firstn 1 (skipn j l))
    (List.map (fun i => skipn i p) (seq k n))
  = firstn n (skipn (j + k) p).
Proof.
  revert k. induction n as [|n IH]; intros k; [reflexivity|].
  cbn [seq List.map flat_map]. rewrite IH, skipn_skipn.
  replace (skipn (j + S k) p) with (skipn 1 (skipn (j + k) p))
    by (rewrite skipn_skipn; f_equal; lia).
  apply (chunking_proofs.firstn_add_skipn 1 n).
Qed.

(** X17: for every [n] of at least 1, [ngrams(string, n)] is the list of
    all windows of [n] characters of the string padded with one space on
    each side, from left to right: [len(string) + 3 - n] windows (none
    when [n] is greater than [len(string) + 2]), each of exactly [n]
    characters. *)
Theorem ngrams_windows (s : str) (n : nat) :
  1 <= n ->
  ngrams s n
  = List.map (fun i => firstn n (skipn i ([space] ++ s ++ [space])))
      (seq 0 (length s + 3 - n))
  /\ Forall (fun g => length g = n) (ngrams s n).
Proof.
  intros Hn.
  assert (E : ngrams s n
              = List.map (fun i => firstn n (skipn i ([space] ++ s ++ [space])))
                  (seq 0 (length s + 3 - n))).
  { unfold ngrams. cbv zeta.
    set (p := [space] ++ s ++ [space]).
    destruct n as [|n]; [lia|].
    assert (Els : List.map (fun i => skipn i p) (seq 0 (S n))
                  = p :: List.map (fun i => skipn i p) (seq 1 n))
      by reflexivity.
    rewrite Els.
    change (zip_star (p :: List.map (fun i => skipn i p) (seq 1 n)))
      with (List.map
              (fun j => flat_map (fun l => firstn 1 (skipn j l))
                          (p :: List.map (fun i => skipn i p) (seq 1 n)))
              (seq 0 (fold_right Nat.min (length p)
                        (List.map (@length char)
                           (p :: List.map (fun i => skipn i p) (seq 1 n)))))).
    rewrite <- Els.
    assert (Hm : fold_right Nat.min (length p)
                   (List.map (@length char)
                      (List.map (fun i => skipn i p) (seq 0 (S n))))
                 = length s + 3 - S n).
    { rewrite List.map_map.
      rewrite (List.map_ext (fun i => length (skipn i p))
                 (fun i => length p - i))
        by (intros i; apply length_skipn).
      rewrite min_of_suffix_lengths.
      unfold p. rewrite !length_app. cbn [length]. lia. }
    rewrite Hm.
    rewrite List.map_map. apply List.map_ext. intros j.
    rewrite fuzzy_index_proofs.concat_singletons, column_of_suffixes.
    rewrite Nat.add_0_r. reflexivity. }
  split; [exact E|].
  rewrite E. apply List.Forall_map. apply List.Forall_forall.
  intros i Hi. apply in_seq in Hi.
  rewrite length_firstn, length_skipn, !length_app. cbn [length]. lia.
Qed.

(** [ngrams(string, 0)] zips nothing. *)
Lemma ngrams_zero (s : str) : ngrams s 0 = [].
Proof. reflexivity. Qed.

Section encode_more.
Context `{Unicode} `{!AsciiUnicode}.

Lemma filter_filter_and {A} (f g : A -> bool) (l : list A) :
  List.filter f (List.filter g l) = List.filter (fun x => g x && f x) l.
Proof.
  induction l as [|x l IH]; simpl; [reflexivity|].
  destruct (g x); simpl; [destruct (f x)|]; rewrite IH; reflexivity.
Qed.

Lemma filter_ext_Forall {A} (f g : A -> bool) (l : list A) :
  Forall (fun x => f x = g x) l -> List.filter f l = List.filter g l.
Proof.
  induction 1 as [|x l Hx _ IH]; simpl; [reflexivity|].
  rewrite Hx, IH. reflexivity.
Qed.

(** X18: on ASCII text [encode_string] keeps exactly the letters, the digits
    and the underscores, in their order, and turns the letters to lower
    case; spaces, punctuation and control characters are dropped. *)
Theorem encode_string_ascii_spec (t : str) :
  forallb is_ascii t = true ->
  encode_string (Some t)
  = Some (List.map ascii_lower
            (List.filter (fun c => ascii_alnum c || (c =? underscore)%N) t)).
Proof.
  intros Ht. apply fuzzy_index_proofs.forallb_Forall' in Ht.
  set (w := List.filter (fun c => ascii_alnum c || (c =? underscore)%N) t).
  assert (Ew : sub_spaces (sub_non_word t) = w).
  { unfold sub_spaces, sub_non_word, w. rewrite filter_filter_and.
    apply filter_ext_Forall. eapply List.Forall_impl; [|exact Ht].
    intros c Hc. cbv beta. unfold is_word. rewrite (isalnum_ascii c Hc).
    destruct (ascii_alnum c || (c =? underscore)%N) eqn:Ew.
    - pose proof (fuzzy_index_proofs.ascii_word_not_space c Ew) as Hs.
      assert (Hne : (c =? space)%N = false).
      { destruct (N.eqb_spec c space) as [->|]; [|reflexivity].
        vm_compute in Hs. discriminate. }
      rewrite Hne. reflexivity.
    - simpl. destruct (c =? space)%N; reflexivity. }
  assert (Hw : Forall (fun c => is_ascii c = true
                         /\ ascii_alnum c || (c =? underscore)%N = true) w).
  { apply List.Forall_forall. intros c Hc. unfold w in Hc.
    apply filter_In in Hc as [Hc Hcw]. split; [|exact Hcw].
    exact (proj1 (List.Forall_forall _ _) Ht c Hc). }
  assert (E3 : strip w = w).
  { apply fuzzy_index_proofs.strip_no_space.
    eapply List.Forall_impl; [|exact Hw].
    intros c [Hca Hcw]. rewrite (isspace_ascii c Hca).
    apply fuzzy_index_proofs.ascii_word_not_space; exact Hcw. }
  assert (Hwa : forallb is_ascii w = true).
  { apply fuzzy_index_proofs.forallb_Forall'.
    eapply List.Forall_impl; [|exact Hw]. intros c [Hc _]; exact Hc. }
  unfold encode_string. rewrite Ew, E3, (lower_ascii w Hwa). f_equal.
  apply unidecode_ascii. apply fuzzy_index_proofs.forallb_Forall'.
  apply List.Forall_map. eapply List.Forall_impl; [|exact Hw].
  intros c [_ Hc]. apply fuzzy_index_proofs.plain_is_ascii.
  apply fuzzy_index_proofs.ascii_word_lower_plain. exact Hc.
Qed.

End encode_more.

Section FuzzyIndex_more.
Context `{Backend}.

(** X19: with the backend available, an index that [build] has built
    answers a query with one result for each pair of id and similarity
    in the first row of the backend's answer, in that order; it raises
    only when the backend returns no row at all ([IndexError]). *)
Theorem build_then_search (self built : FuzzyIndex)
    (search_data : list (str * Z)) (query_string : str) :
  have_nmslib self = true ->
  build self search_data = Ok built ->
  exists v ix,
    vectorizer built = Some v /\ index built = Some ix
    /\ search built query_string
       = match knnQueryBatch ix (transform v [query_string]) 3 with
         | [] => Raise IndexError
         | r0 :: _ =>
             Ok (List.map (fun ic => {| confidence := Qabs (snd ic);
                                        id := fst ic;
                                        text := query_string |})
                   (zip (fst r0) (snd r0)))
         end.
Proof.
  intros Hn. unfold build. rewrite Hn. cbn [negb].
  destruct (fit_transform _) as [[v m]|x]; [|discriminate].
  cbn. intros [= <-]. eexists _, _. split; [reflexivity|].
  split; [reflexivity|].
  unfold search. cbn [have_nmslib vectorizer index negb].
  destruct (knnQueryBatch _ _ 3) as [|r0 rs]; reflexivity.
Qed.

End FuzzyIndex_more.

End fuzzy_more_proofs.

(** ** [build_index] and [MappingLookup] *)

Module mapping_lookup_proofs.

Import fuzzy_index mapping_lookup examples.

Lemma dict_set_keys {K V} `{EqDecision K} (k k0 : K) (v : V) (d : list (K * V)) :
  In k (List.map fst (dict_set k0 v d)) <-> k = k0 \/ In k (List.map fst d).
Proof.
  induction d as [|[k' v'] d IH]; simpl.
  - intuition congruence.
  - destruct (decide (k0 = k')) as [->|Hne]; simpl.
    + intuition congruence.
    + rewrite IH. intuition congruence.
Qed.

Lemma dict_get_In {K V} `{EqDecision K} (d : list (K * V)) (k : K) (v : V) :
  dict_get d k = Ok v -> In (k, v) d.
Proof.
  induction d as [|[k' v'] d IH]; simpl; [discriminate|].
  destruct (decide (k = k')) as [->|Hne].
  - intros [= ->]. left. reflexivity.
  - intros Hd. right. apply IH. exact Hd.
Qed.

Section mapping_lookup_proofs.
Context `{Unicode} `{Backend} `{Executor}.

(** X20: [build_index] returns an index for exactly the artists of the
    batch that have recordings, in the order of the batch. *)
Theorem build_index_artists (have : bool) (thread_data : batch)
    (results : list (Z * FuzzyIndex)) :
  build_index have thread_data = Ok results ->
  List.map fst results
  = List.map fst (List.filter (fun ad => 0 <? length (snd ad)) thread_data).
Proof.
  unfold build_index. revert results.
  induction thread_data as [|[a rd] td IH]; intros results; simpl.
  - intros [= <-]. reflexivity.
  - destruct (0 <? length rd) eqn:El.
    + destruct (build (init have) rd) as [ix|x]; [|discriminate]. simpl.
      destruct (for_each _ td) as [zs|x]; [|discriminate]. simpl.
      intros [= <-]. simpl. rewrite (IH zs eq_refl). reflexivity.
    + simpl. destruct (for_each _ td) as [zs|x]; [|discriminate]. simpl.
      intros [= <-]. apply IH. reflexivity.
Qed.

(** X21: without the backend [build_index] never raises, and the indexes it
    returns are unbuilt ones. *)
Theorem build_index_without_backend (thread_data : batch) :
  build_index false thread_data
  = Ok (List.map (fun ad => (fst ad, init false))
          (List.filter (fun ad => 0 <? length (snd ad)) thread_data)).
Proof.
  unfold build_index.
  induction thread_data as [|[a rd] td IH]; [reflexivity|].
  cbn [for_each List.filter snd fst]. rewrite IH.
  destruct (0 <? length rd); reflexivity.
Qed.

(** *** The loop of [create_indexes] *)

Lemma read_line_futures (st st' : reader) (i : Z) (row : csv_row) :
  (0 < i < CHUNK_SIZE)%Z ->
  read_line st i row = Ok st' -> futures st' = futures st.
Proof.
  intros Hi. unfold read_line.
  replace (i mod CHUNK_SIZE =? 0)%Z with false.
  2:{ symmetry. apply Z.eqb_neq. rewrite Z.mod_small by lia. lia. }
  rewrite andb_false_r.
  destruct (_ && _)%bool.
  - destruct (last_row st); [|discriminate]. cbn. intros [= <-]. reflexivity.
  - cbn. intros [= <-]. reflexivity.
Qed.

Lemma read_lines_futures (rows : list csv_row) (st st' : reader) (i : Z) :
  (0 < i)%Z -> (i + Z.of_nat (length rows) <= CHUNK_SIZE)%Z ->
  read_lines st i rows = Ok st' -> futures st' = futures st.
Proof.
  revert st i. induction rows as [|row rows IH]; intros st i Hi Hn; simpl.
  - intros [= <-]. reflexivity.
  - destruct (read_line st i row) as [st1|x] eqn:E1; [|discriminate]. cbn.
    intros Hrest. cbn [length] in Hn.
    rewrite (IH st1 (i + 1)%Z) by (try exact Hrest; lia).
    apply (read_line_futures st st1 i row); [lia|exact E1].
Qed.

Lemma create_indexes_small `{!ExecutorLaw} (have : bool)
    (rows : list csv_row) (ml : MappingLookup) :
  (Z.of_nat (length rows) < CHUNK_SIZE)%Z ->
  create_indexes have rows = Ok ml ->
  recording_indexes ml = ∅.
Proof.
  intros Hn. unfold create_indexes.
  destruct (read_lines reader_start 1 rows) as [st|x] eqn:Er; [|discriminate].
  cbn. rewrite (read_lines_futures rows reader_start st 1) by (try exact Er; lia).
  cbn [futures reader_start].
  rewrite (Permutation_nil (Permutation_sym (as_completed_perm []))).
  cbn. destruct (build _ _) as [ix|x]; [|discriminate]. cbn.
  intros [= <-]. reflexivity.
Qed.

(** X22: when the file has fewer than [CHUNK_SIZE] lines behind the header,
    no batch is ever submitted, and [create_indexes] leaves
    [recording_indexes] empty. *)
Theorem create_indexes_small_file `{!ExecutorLaw} (have : bool)
    (rows : list csv_row) (ml : MappingLookup) :
  (Z.of_nat (length rows) < CHUNK_SIZE)%Z ->
  create_indexes have rows = Ok ml ->
  recording_indexes ml = ∅.
Proof. apply create_indexes_small. Qed.

(** *** The artists that are registered *)

Lemma read_line_keys (st : reader) (i : Z) (row : csv_row) :
  reader_ok st ->
  exists st', read_line st i row = Ok st'
    /\ reader_ok st'
    /\ last_artist_credit_id st' = c_artist_credit_id row
    /\ forall k, In k (List.map fst (artist_data st'))
         <-> In k (List.map fst (artist_data st))
             \/ In k (if ((0 <=? last_artist_credit_id st)%Z
                          && negb (last_artist_credit_id st
                                   =? c_artist_credit_id row)%Z)%bool
                      then [last_artist_credit_id st] else []).
Proof.
  intros Hok. unfold read_line.
  destruct ((0 <=? last_artist_credit_id st)%Z
            && negb (last_artist_credit_id st =? c_artist_credit_id row)%Z)%bool
    eqn:Ec.
  - unfold reader_ok in Hok. destruct (last_row st) as [last|] eqn:El.
    + cbn. eexists. split; [reflexivity|]. split; [reflexivity|].
      split; [reflexivity|]. intros k. cbn [artist_data].
      rewrite dict_set_keys, Hok. simpl. intuition.
    + apply andb_true_iff in Ec as [Ec _]. apply Z.leb_le in Ec. lia.
  - cbn. eexists. split; [reflexivity|]. split; [reflexivity|].
    split; [reflexivity|]. intros k. simpl. intuition.
Qed.

Lemma read_lines_keys (rows : list csv_row) (st : reader) (i : Z) :
  reader_ok st ->
  exists st', read_lines st i rows = Ok st'
    /\ forall k, In k (List.map fst (artist_data st'))
         <-> In k (List.map fst (artist_data st))
             \/ In k (registered (last_artist_credit_id st) rows).
Proof.
  revert st i. induction rows as [|row rows IH]; intros st i Hok; simpl.
  - eexists. split; [reflexivity|]. intuition.
  - destruct (read_line_keys st i row Hok) as (st1 & -> & Hok1 & Hl & Hk1).
    cbn. destruct (IH st1 (i + 1)%Z Hok1) as (st' & -> & Hk).
    eexists. split; [reflexivity|]. intros k.
    rewrite Hk, Hk1, Hl, in_app_iff. tauto.
Qed.

Lemma registered_adjacent (rows : list csv_row) (last k : Z) :
  In k (registered last rows)
  <-> (0 <= k)%Z
      /\ ((last = k /\ exists r rows', rows = r :: rows'
                                       /\ c_artist_credit_id r <> k)
          \/ exists rows1 r1 r2 rows2,
               rows = rows1 ++ r1 :: r2 :: rows2
               /\ c_artist_credit_id r1 = k /\ c_artist_credit_id r2 <> k).
Proof.
  revert last. induction rows as [|r rows IH]; intros last; simpl.
  - split; [intros []|].
    intros [_ [(_ & r & rows' & E & _)|(rows1 & r1 & r2 & rows2 & E & _)]].
    + discriminate.
    + destruct rows1; discriminate.
  - rewrite in_app_iff, IH. split.
    + intros [Hin|(Hk & [(El & r' & rows' & -> & Hr')
                        |(rows1 & r1 & r2 & rows2 & -> & Hr1 & Hr2)])].
      * destruct (_ && _)%bool eqn:Ec; [|destruct Hin].
        destruct Hin as [<-|[]]. apply andb_true_iff in Ec as [E1 E2].
        apply Z.leb_le in E1. apply negb_true_iff, Z.eqb_neq in E2.
        split; [exact E1|]. left. split; [reflexivity|].
        exists r, rows. split; [reflexivity|]. congruence.
      * split; [exact Hk|]. right. exists [], r, r', rows'. auto.
      * split; [exact Hk|]. right. exists (r :: rows1), r1, r2, rows2. auto.
    + intros [Hk [(-> & r' & rows' & [= <- <-] & Hr')
                 |(rows1 & r1 & r2 & rows2 & E & Hr1 & Hr2)]].
      * left.
        replace ((0 <=? k)%Z && negb (k =? c_artist_credit_id r)%Z)%bool
          with true; [left; reflexivity|].
        symmetry. apply andb_true_iff. split; [apply Z.leb_le; exact Hk|].
        apply negb_true_iff, Z.eqb_neq. congruence.
      * right. split; [exact Hk|].
        destruct rows1 as [|r0 rows1]; cbn in E; injection E as <- ->.
        -- left. split; [exact Hr1|]. exists r2, rows2. auto.
        -- right. exists rows1, r1, r2, rows2. auto.
Qed.

(** X26: the loop of [create_indexes] never fails, and an artist is in
    [artist_data] afterwards exactly when its id is not negative and some
    line of that artist is followed by a line of another artist. *)
Theorem artists_registered (have : bool) (rows : list csv_row)
    (ml : MappingLookup) (k : Z) :
  create_indexes have rows = Ok ml ->
  (exists st, read_lines reader_start 1 rows = Ok st)
  /\ (In k (List.map fst (ml_artist_data ml))
      <-> (0 <= k)%Z
          /\ exists rows1 r1 r2 rows2,
               rows = rows1 ++ r1 :: r2 :: rows2
               /\ c_artist_credit_id r1 = k /\ c_artist_credit_id r2 <> k).
Proof.
  unfold create_indexes.
  destruct (read_lines_keys rows reader_start 1) as (st & Er & Hk);
    [reflexivity|].
  rewrite Er. cbn.
  destruct (collect have _ ∅) as [m|x]; [|discriminate]. cbn.
  destruct (build _ _) as [ix|x]; [|discriminate]. cbn.
  intros [= <-]. split; [exists st; reflexivity|]. cbn [ml_artist_data].
  rewrite Hk, registered_adjacent. cbn [artist_data reader_start List.map].
  split.
  - intros [[]|[Hk0 [(E & _)|Hadj]]]; [|split; assumption].
    cbn in E. lia.
  - intros [Hk0 Hadj]. right. split; [exact Hk0|]. right. exact Hadj.
Qed.

Lemma registered_not_last (rows : list csv_row) (r : csv_row) (last : Z) :
  (last < 0)%Z \/ last <> c_artist_credit_id r ->
  Forall (fun r' => c_artist_credit_id r' <> c_artist_credit_id r) rows ->
  ~ In (c_artist_credit_id r) (registered last (rows ++ [r])).
Proof.
  intros Hl Hrows. revert last Hl.
  induction Hrows as [|r' rows Hr' _ IH]; intros last Hl; simpl.
  - rewrite app_nil_r. destruct (_ && _)%bool eqn:Ec; [|intros []].
    apply andb_true_iff in Ec as [E1 _]. apply Z.leb_le in E1.
    intros [E|[]]. lia.
  - rewrite in_app_iff. intros [Hin|Hin].
    + destruct (_ && _)%bool eqn:Ec; [|destruct Hin].
      apply andb_true_iff in Ec as [E1 _]. apply Z.leb_le in E1.
      destruct Hin as [E|[]]. lia.
    + apply (IH (c_artist_credit_id r')); [right; exact Hr'|exact Hin].
Qed.

(** X27: the artist of the last line is not registered in [artist_data]
    when no earlier line is of that artist: the last artist of a file
    that is grouped by artist is lost. *)
Theorem last_artist_not_registered (have : bool) (rows : list csv_row)
    (r : csv_row) (ml : MappingLookup) :
  Forall (fun r' => c_artist_credit_id r' <> c_artist_credit_id r) rows ->
  create_indexes have (rows ++ [r]) = Ok ml ->
  ~ In (c_artist_credit_id r) (List.map fst (ml_artist_data ml)).
Proof.
  intros Hrows. unfold create_indexes.
  destruct (read_lines_keys (rows ++ [r]) reader_start 1) as (st & Er & Hk);
    [reflexivity|].
  rewrite Er. cbn.
  destruct (collect have _ ∅) as [m|x]; [|discriminate]. cbn.
  destruct (build _ _) as [ix|x]; [|discriminate]. cbn.
  intros [= <-]. cbn [ml_artist_data]. rewrite Hk.
  intros [[]|Hin].
  eapply registered_not_last; [|exact Hrows|exact Hin].
  left. cbn. lia.
Qed.

(** *** [search] *)

Lemma search_artists_unindexed (self : MappingLookup) (recording_name : str)
    (artists : list hit) (results res : list found) :
  recording_indexes self = ∅ ->
  search_artists self recording_name artists results = Ok res ->
  res = results.
Proof.
  intros He. revert results.
  induction artists as [|artist artists IH]; intros results; simpl.
  - intros [= <-]. reflexivity.
  - destruct (dict_get _ _) as [entry|x]; [|discriminate]. cbn.
    destruct (negb _).
    + rewrite He, lookup_empty. discriminate.
    + apply IH.
Qed.

(** X23: after [create_indexes] on a file with fewer than [CHUNK_SIZE]
    lines, [search] finds nothing: it returns the empty list, or it
    raises. *)
Theorem small_file_search_finds_nothing `{!ExecutorLaw} (have : bool)
    (rows : list csv_row) (ml : MappingLookup)
    (artist_name recording_name : str) (results : list found) :
  (Z.of_nat (length rows) < CHUNK_SIZE)%Z ->
  create_indexes have rows = Ok ml ->
  search ml artist_name recording_name = Ok results ->
  results = [].
Proof.
  intros Hn Hc. unfold search.
  destruct (fuzzy_index.search _ _) as [artists|x]; [|discriminate]. cbn.
  apply search_artists_unindexed. eapply create_indexes_small; eassumption.
Qed.

Lemma search_artists_fields (self : MappingLookup) (recording_name : str)
    (P : found -> Prop) (artists : list hit) (results res : list found) :
  (forall f, (ARTIST_CONFIDENCE_THRESHOLD < f_artist_confidence f)%Q ->
             f_recording_name f = encoded recording_name ->
             (0 <= f_recording_confidence f)%Q ->
             (exists v, In (f_artist_credit_id f, (f_artist_name f, v))
                          (ml_artist_data self)) ->
             P f) ->
  search_artists self recording_name artists results = Ok res ->
  Forall P results -> Forall P res.
Proof.
  intros HP. revert results.
  induction artists as [|artist artists IH]; intros results; simpl.
  - intros [= <-] Hr. exact Hr.
  - destruct (dict_get _ _) as [[name v]|x] eqn:Eg; [|discriminate]. cbn.
    destruct (negb _) eqn:Ec; [|apply IH].
    destruct (recording_indexes self !! id artist) as [[ix|]|];
      [|intros [= <-] _; constructor|discriminate].
    destruct (fuzzy_index.search ix _) as [recs|x] eqn:Es; [|discriminate]. cbn.
    intros Hres Hr. apply (IH _ Hres). apply Forall_app. split; [exact Hr|].
    apply List.Forall_map. 
    pose proof (fuzzy_index_proofs.search_confidence_abs _ _ _ Es) as Hrecs.
    eapply List.Forall_impl; [|exact Hrecs]. intros r [Hc Ht]. cbv beta.
    apply HP; cbn.
    + apply negb_true_iff in Ec. apply Qnot_le_lt. intros Hle.
      apply Qle_bool_iff in Hle. congruence.
    + exact Ht.
    + exact Hc.
    + exists v. apply dict_get_In. exact Eg.
Qed.

(** X24: every result of [MappingLookup.search] belongs to an artist hit
    whose confidence is greater than 0.7 and whose id is a key of
    [artist_data], from which the artist name is taken; its recording
    name is the query, encoded twice, and not a name from the
    catalogue. *)
Theorem search_result_fields (self : MappingLookup)
    (artist_name recording_name : str) (results : list found) :
  search self artist_name recording_name = Ok results ->
  Forall (fun f =>
            (ARTIST_CONFIDENCE_THRESHOLD < f_artist_confidence f)%Q
            /\ f_recording_name f = encoded (encoded recording_name)
            /\ (0 <= f_recording_confidence f)%Q
            /\ exists v, In (f_artist_credit_id f, (f_artist_name f, v))
                           (ml_artist_data self))
    results.
Proof.
  unfold search.
  destruct (fuzzy_index.search _ _) as [artists|x]; [|discriminate]. cbn.
  intros Hs. eapply search_artists_fields; [|exact Hs|constructor].
  intros f ? ? ? ?. auto.
Qed.

(** *** What [recording_indexes] holds *)

Lemma merge_no_None (results : list (Z * FuzzyIndex))
    (m : gmap Z (option FuzzyIndex)) :
  (forall k, m !! k <> Some None) -> forall k, merge m results !! k <> Some None.
Proof.
  unfold merge. revert m.
  induction results as [|[a ix] results IH]; intros m Hm; simpl; [exact Hm|].
  apply IH. intros k. destruct (decide (k = a)) as [->|Hne].
  - rewrite lookup_insert_eq. discriminate.
  - rewrite lookup_insert_ne by congruence. apply Hm.
Qed.

Lemma collect_no_None (have : bool) (completed : list batch)
    (m m' : gmap Z (option FuzzyIndex)) :
  (forall k, m !! k <> Some None) -> collect have completed m = Ok m' ->
  forall k, m' !! k <> Some None.
Proof.
  revert m. induction completed as [|b completed IH]; intros m Hm; simpl.
  - intros [= <-]. exact Hm.
  - destruct (build_index have b) as [results|x]; [|discriminate]. cbn.
    apply IH. apply merge_no_None. exact Hm.
Qed.

(** X25: [create_indexes] never stores [None] in [recording_indexes]; so
    the branch of [search] for an artist that is not indexed, which
    returns the empty list, is never taken: such an artist raises
    [KeyError]. *)
Theorem recording_indexes_never_None (have : bool) (rows : list csv_row)
    (ml : MappingLookup) (k : Z) :
  create_indexes have rows = Ok ml ->
  recording_indexes ml !! k <> Some None.
Proof.
  unfold create_indexes.
  destruct (read_lines reader_start 1 rows) as [st|x]; [|discriminate]. cbn.
  destruct (collect have _ ∅) as [m|x] eqn:Ec; [|discriminate]. cbn.
  destruct (build _ _) as [ix|x]; [|discriminate]. cbn.
  intros [= <-]. cbn. eapply collect_no_None; [|exact Ec].
  intros k'. rewrite lookup_empty. discriminate.
Qed.

End mapping_lookup_proofs.

End mapping_lookup_proofs.

(** ** The theorems at concrete inputs *)

Module more_examples_proofs.

Import fuzzy_index search_index search_process spec examples.
Import chunking.

Lemma chunks_partition_witness :
  exists cs, chunks [1; 2; 3; 4; 5; 6; 7] 3 = Yielded cs
             /\ length cs = 3 /\ concat cs = [1; 2; 3; 4; 5; 6; 7].
Proof.
  destruct (chunking_proofs.chunks_partition [1; 2; 3; 4; 5; 6; 7] 3) as (cs & E & Hl & Hc & _); [lia|].
  exists cs. auto.
Defined.

Lemma chunks_not_positive_witness :
  chunks [1; 2; 3] 0 = ZeroDivisionError /\ chunks [1; 2; 3] (-2) = Yielded [].
Proof.
  split.
  - apply (chunking_proofs.chunks_not_positive [1; 2; 3] 0). lia.
  - apply (chunking_proofs.chunks_not_positive [1; 2; 3] (-2)). lia.
Defined.

Lemma worker_answers_None_until_exit_witness :
  let w := run true 5
             (@start (fixed_backend [1%Q])
                [mk_request 7 [3%Z] "let it be" "get back";
                 mk_request 8 [] "let it be" "get back";
                 exit_request;
                 mk_request 9 [1%Z] "let it be" "get back"] ∅) in
  ph w = Stopped
  /\ in_q w = [mk_request 9 [1%Z] "let it be" "get back"]
  /\ out_d w !! 7%Z = Some (RetNone, 7%Z)
  /\ out_d w !! 8%Z = Some (RetNone, 8%Z)
  /\ out_d w !! 9%Z = None.
Proof.
  destruct (@worker_proofs.worker_answers_None_until_exit
              unicode_excerpt sample_db (fixed_backend [1%Q]) true
              [mk_request 7 [3%Z] "let it be" "get back";
               mk_request 8 [] "let it be" "get back"]
              [mk_request 9 [1%Z] "let it be" "get back"] exit_request ∅)
    as (Hp & Hq & _ & Hin & Hout).
  - repeat constructor; try (eexists; reflexivity);
      intros ids [= <-]; repeat constructor.
  - reflexivity.
  - cbv zeta. split; [exact Hp|]. split; [exact Hq|].
    split; [apply (Hin (mk_request 7 [3%Z] "let it be" "get back"));
            [left; reflexivity|reflexivity]|].
    split; [apply (Hin (mk_request 8 [] "let it be" "get back"));
            [right; left; reflexivity|reflexivity]|].
    rewrite Hout; [reflexivity|].
    intros r [<-|[<-|[]]]; discriminate.
Defined.

Lemma worker_crashes_on_artist_with_rows_witness :
  let w := run true 4
             (@start (fixed_backend [1%Q])
                [mk_request 7 [3%Z] "let it be" "get back";
                 mk_request 8 [3; 1]%Z "let it be" "get back";
                 exit_request] ∅) in
  ph w = Crashed TypeError
  /\ in_q w = [exit_request]
  /\ out_d w !! 8%Z = None
  /\ run true 10 w = w.
Proof.
  destruct (@worker_proofs.worker_crashes_on_artist_with_rows
              unicode_excerpt sample_db (fixed_backend [1%Q]) true
              [mk_request 7 [3%Z] "let it be" "get back"] [exit_request]
              (mk_request 8 [3; 1]%Z "let it be" "get back") [3; 1]%Z 1%Z ∅)
    as (Hp & Hq & Hfix & Hout).
  - repeat constructor; try (eexists; reflexivity);
      intros ids [= <-]; repeat constructor.
  - reflexivity.
  - reflexivity.
  - reflexivity.
  - right. left. reflexivity.
  - discriminate.
  - cbv zeta. split; [exact Hp|]. split; [exact Hq|].
    split; [|apply Hfix].
    rewrite Hout; [reflexivity|].
    intros r [<-|[]]. discriminate.
Defined.

Lemma ngrams_windows_witness :
  ngrams (lit "ab") 2 = [lit " a"; lit "ab"; lit "b "]
  /\ ngrams (lit "ab") 5 = [].
Proof.
  split.
  - apply (proj1 (fuzzy_more_proofs.ngrams_windows (lit "ab") 2 ltac:(lia))).
  - apply (proj1 (fuzzy_more_proofs.ngrams_windows (lit "ab") 5 ltac:(lia))).
Defined.

Lemma encode_string_ascii_spec_witness :
  encode_string (Some (lit "The Beatles_1!")) = Some (lit "thebeatles_1").
Proof.
  apply (@fuzzy_more_proofs.encode_string_ascii_spec unicode_excerpt
           fuzzy_index_proofs.unicode_excerpt_ascii (lit "The Beatles_1!")).
  reflexivity.
Defined.

Lemma build_then_search_witness :
  exists built : @FuzzyIndex (fixed_backend [(-3 # 10)%Q]),
    build (init true) [(lit "war", 5%Z)] = Ok built
    /\ fuzzy_index.search built (lit "wAr")
       = Ok [{| confidence := (3 # 10)%Q; id := 5%Z; text := lit "wAr" |}].
Proof.
  destruct (@build (fixed_backend [(-3 # 10)%Q]) (init true) [(lit "war", 5%Z)])
    as [built|x] eqn:E; [|vm_compute in E; discriminate].
  exists built. split; [reflexivity|].
  destruct (@fuzzy_more_proofs.build_then_search (fixed_backend [(-3 # 10)%Q])
              (init true) built [(lit "war", 5%Z)] (lit "wAr") eq_refl E)
    as (v & ix & Ev & Ei & ->).
  vm_compute in E. injection E as <-. cbn in Ev, Ei.
  injection Ev as <-. injection Ei as <-. reflexivity.
Defined.

End more_examples_proofs.

Module mapping_examples_proofs.

Import fuzzy_index mapping_lookup examples examples_more.

#[global] Instance fifo_executor_law : @ExecutorLaw fifo_executor.
Proof. split. intros futures. reflexivity. Qed.

Lemma build_index_artists_witness :
  exists results,
    @build_index (fixed_backend []) true
      [(1%Z, [(lit "letitbe", 10%Z)]); (2%Z, []); (3%Z, [(lit "war", 30%Z)])]
    = Ok results
    /\ List.map fst results = [1%Z; 3%Z].
Proof.
  destruct (@build_index (fixed_backend []) true
      [(1%Z, [(lit "letitbe", 10%Z)]); (2%Z, []); (3%Z, [(lit "war", 30%Z)])])
    as [results|x] eqn:E; [|vm_compute in E; discriminate].
  exists results. split; [reflexivity|].
  apply (@mapping_lookup_proofs.build_index_artists (fixed_backend []) true
           _ results E).
Defined.

Lemma create_indexes_small_file_witness :
  exists ml,
    @create_indexes unicode_excerpt (fixed_backend []) fifo_executor true
      sample_lines = Ok ml
    /\ recording_indexes ml = ∅.
Proof.
  destruct (@create_indexes unicode_excerpt (fixed_backend []) fifo_executor
              true sample_lines) as [ml|x] eqn:E;
    [|vm_compute in E; discriminate].
  exists ml. split; [reflexivity|].
  apply (@mapping_lookup_proofs.create_indexes_small_file unicode_excerpt
           (fixed_backend []) fifo_executor fifo_executor_law true
           sample_lines ml); [vm_compute; reflexivity|exact E].
Defined.

Lemma small_file_search_finds_nothing_witness :
  exists ml,
    @create_indexes unicode_excerpt (fixed_backend [(-5 # 10)%Q]) fifo_executor
      true sample_lines = Ok ml
    /\ mapping_lookup.search ml (lit "Beatles") (lit "Let It Be") = Ok [].
Proof.
  destruct (@create_indexes unicode_excerpt (fixed_backend [(-5 # 10)%Q])
              fifo_executor true sample_lines) as [ml|x] eqn:E;
    [|vm_compute in E; discriminate].
  exists ml. split; [reflexivity|].
  destruct (mapping_lookup.search ml (lit "Beatles") (lit "Let It Be"))
    as [results|x] eqn:Es;
    [|vm_compute in E; injection E as <-; vm_compute in Es; discriminate].
  f_equal.
  apply (@mapping_lookup_proofs.small_file_search_finds_nothing unicode_excerpt
           (fixed_backend [(-5 # 10)%Q]) fifo_executor fifo_executor_law true
           sample_lines ml (lit "Beatles") (lit "Let It Be") results);
    [vm_compute; reflexivity|exact E|exact Es].
Defined.

Lemma search_result_fields_witness :
  exists f,
    @mapping_lookup.search unicode_excerpt _ sample_lookup
      (lit "Beatles") (lit "Let it be") = Ok [f]
    /\ f_recording_name f = lit "letitbe"
    /\ (ARTIST_CONFIDENCE_THRESHOLD < f_artist_confidence f)%Q.
Proof.
  destruct (@mapping_lookup.search unicode_excerpt _ sample_lookup
              (lit "Beatles") (lit "Let it be")) as [[|f [|]]|x] eqn:E;
    try (vm_compute in E; discriminate).
  exists f. split; [reflexivity|].
  pose proof (@mapping_lookup_proofs.search_result_fields unicode_excerpt _
                sample_lookup (lit "Beatles") (lit "Let it be") [f] E) as Hf.
  inversion Hf as [|? ? (Hc & Hn & _) _]; subst.
  split; [rewrite Hn; reflexivity|exact Hc].
Defined.

Lemma recording_indexes_never_None_witness :
  exists ml,
    @create_indexes unicode_excerpt (fixed_backend []) fifo_executor true
      sample_lines = Ok ml
    /\ recording_indexes ml !! 1%Z <> Some None.
Proof.
  destruct (@create_indexes unicode_excerpt (fixed_backend []) fifo_executor
              true sample_lines) as [ml|x] eqn:E;
    [|vm_compute in E; discriminate].
  exists ml. split; [reflexivity|].
  apply (@mapping_lookup_proofs.recording_indexes_never_None unicode_excerpt
           (fixed_backend []) fifo_executor true sample_lines ml 1%Z E).
Defined.

Lemma artists_registered_witness :
  exists ml,
    @create_indexes unicode_excerpt (fixed_backend []) fifo_executor true
      sample_lines = Ok ml
    /\ In 1%Z (List.map fst (ml_artist_data ml)).
Proof.
  destruct (@create_indexes unicode_excerpt (fixed_backend []) fifo_executor
              true sample_lines) as [ml|x] eqn:E;
    [|vm_compute in E; discriminate].
  exists ml. split; [reflexivity|].
  apply (proj2 (@mapping_lookup_proofs.artists_registered unicode_excerpt
                  (fixed_backend []) fifo_executor true sample_lines ml 1%Z E)).
  split; [lia|].
  exists [line 10 1 "The Beatles" "Let It Be"],
         (line 11 1 "The Beatles" "Get Back"),
         (line 20 2 "War" "Low Rider"), [].
  split; [reflexivity|]. split; [reflexivity|]. cbn. lia.
Defined.

Lemma last_artist_not_registered_witness :
  exists ml,
    @create_indexes unicode_excerpt (fixed_backend []) fifo_executor true
      sample_lines = Ok ml
    /\ ~ In 2%Z (List.map fst (ml_artist_data ml)).
Proof.
  destruct (@create_indexes unicode_excerpt (fixed_backend []) fifo_executor
              true sample_lines) as [ml|x] eqn:E;
    [|vm_compute in E; discriminate].
  exists ml. split; [reflexivity|].
  apply (@mapping_lookup_proofs.last_artist_not_registered unicode_excerpt
           (fixed_backend []) fifo_executor true
           [line 10 1 "The Beatles" "Let It Be";
            line 11 1 "The Beatles" "Get Back"]
           (line 20 2 "War" "Low Rider") ml); [|exact E].
  repeat constructor; cbn; lia.
Defined.

End mapping_examples_proofs.

